(* ===================================================================== *)
(* memory_machine: week bucketing of listening history and photos, and   *)
(* the random (track, photo, week) sampler of main.py.                   *)
(* ===================================================================== *)

From Stdlib Require Import ZArith Lia QArith Qcanon Ascii String.
From stdpp Require Import gmap strings list fin_maps.

Local Open Scope Z_scope.

(* --------------------------------------------------------------------- *)
(* datetime: the date arithmetic behind dt.isocalendar()                 *)
(* --------------------------------------------------------------------- *)

Module Datetime.

(* A datetime.datetime value.  [utcoffset] is None for a naive value. *)
Record datetime := mk_datetime {
  year : Z; month : Z; day : Z;
  hour : Z; minute : Z; second : Z; microsecond : Z;
  utcoffset : option Z
}.

#[global] Instance datetime_eq_dec : EqDecision datetime.
Proof. solve_decision. Defined.

Definition _is_leap (y : Z) : bool :=
  (y mod 4 =? 0) && (negb (y mod 100 =? 0) || (y mod 400 =? 0)).

Definition _days_before_year (y' : Z) : Z :=
  let y := y' - 1 in y * 365 + y / 4 - y / 100 + y / 400.

Definition _DAYS_IN_MONTH (m : Z) : Z :=
  match m with
  | 1 => 31 | 2 => 28 | 3 => 31 | 4 => 30 | 5 => 31 | 6 => 30
  | 7 => 31 | 8 => 31 | 9 => 30 | 10 => 31 | 11 => 30 | 12 => 31
  | _ => -1
  end.

Definition _DAYS_BEFORE_MONTH (m : Z) : Z :=
  match m with
  | 1 => 0 | 2 => 31 | 3 => 59 | 4 => 90 | 5 => 120 | 6 => 151
  | 7 => 181 | 8 => 212 | 9 => 243 | 10 => 273 | 11 => 304 | 12 => 334
  | _ => -1
  end.

Definition _days_in_month (y m : Z) : Z :=
  if (m =? 2) && _is_leap y then 29 else _DAYS_IN_MONTH m.

Definition _days_before_month (y m : Z) : Z :=
  _DAYS_BEFORE_MONTH m + (if (2 <? m) && _is_leap y then 1 else 0).

Definition _ymd2ord (y m d : Z) : Z :=
  _days_before_year y + _days_before_month y m + d.

Definition THURSDAY : Z := 3.

(* Day number of the Monday starting ISO week 1 of year [y]. *)
Definition _isoweek1monday (y : Z) : Z :=
  let firstday := _ymd2ord y 1 1 in
  let firstweekday := (firstday + 6) mod 7 in
  let week1monday := firstday - firstweekday in
  if THURSDAY <? firstweekday then week1monday + 7 else week1monday.

Definition toordinal (dt : datetime) : Z :=
  _ymd2ord (year dt) (month dt) (day dt).

(* Monday is 0, Sunday is 6. *)
Definition weekday_of_ordinal (o : Z) : Z := (o + 6) mod 7.

(* dt.isocalendar(): (ISO year, ISO week, ISO weekday). *)
Definition isocalendar (dt : datetime) : Z * Z * Z :=
  let y := year dt in
  let week1monday := _isoweek1monday y in
  let today := toordinal dt in
  let week := (today - week1monday) / 7 in
  let day := (today - week1monday) mod 7 in
  if week <? 0 then
    let y := y - 1 in
    let week1monday := _isoweek1monday y in
    let week := (today - week1monday) / 7 in
    let day := (today - week1monday) mod 7 in
    (y, week + 1, day + 1)
  else if (52 <=? week) && (_isoweek1monday (y + 1) <=? today) then
    (y + 1, 1, day + 1)
  else (y, week + 1, day + 1).

(* The values a datetime object can hold (MINYEAR = 1, MAXYEAR = 9999). *)
Definition valid_date (dt : datetime) : Prop :=
  1 <= year dt <= 9999 /\ 1 <= month dt <= 12 /\
  1 <= day dt <= _days_in_month (year dt) (month dt).

End Datetime.
Export Datetime.

(* main.py: get_year_week *)
Definition get_year_week (dt : datetime) : Z * Z :=
  let '(year, week, _) := isocalendar dt in (year, week).

(* --------------------------------------------------------------------- *)
(* ISO 8601 week dates, stated from the standard's wording               *)
(* --------------------------------------------------------------------- *)

Module ISO8601.

(* [t] is the ordinal of the first Thursday of calendar year [y]. *)
Definition first_thursday (y t : Z) : Prop :=
  weekday_of_ordinal t = THURSDAY /\
  _ymd2ord y 1 1 <= t < _ymd2ord y 1 1 + 7.

(* Week 1 of ISO year [y] is the Monday-to-Sunday week holding the year's
   first Thursday; the weeks of [y] run up to the week 1 of [y + 1]. *)
Definition week_of (o : Z) (key : Z * Z) : Prop :=
  exists t t',
    first_thursday (fst key) t /\ first_thursday (fst key + 1) t' /\
    t - 3 <= o < t' - 3 /\
    snd key = (o - (t - 3)) / 7 + 1.

End ISO8601.

(* --------------------------------------------------------------------- *)
(* Python values and helpers used by main.py                             *)
(* --------------------------------------------------------------------- *)

Module Py.

Inductive exn :=
| UnboundLocalError | TypeError | IndexError | KeyError
| UnicodeDecodeError | RecursionError | OSError | OverflowError.

#[global] Instance exn_eq_dec : EqDecision exn.
Proof. solve_decision. Defined.

(* What json.load returns.  JNull is None; a JSON object is the list of
   its members, looked up by key. *)
#[warnings="-register-all"] Inductive json :=
| JNull
| JBool (b : bool)
| JNum (z : Z)
| JStr (s : string)
| JList (l : list json)
| JDict (kvs : list (string * json)).

(* bool(v) *)
Definition truthy (v : json) : bool :=
  match v with
  | JNull => false
  | JBool b => b
  | JNum z => negb (z =? 0)
  | JStr s => negb (String.eqb s "")
  | JList l => match l with [] => false | _ => true end
  | JDict kvs => match kvs with [] => false | _ => true end
  end.

(* a or b *)
Definition py_or (a b : json) : json := if truthy a then a else b.

Definition is_none (v : json) : bool :=
  match v with JNull => true | _ => false end.

Fixpoint dict_lookup (kvs : list (string * json)) (k : string)
  : option json :=
  match kvs with
  | [] => None
  | (k', v) :: rest => if String.eqb k' k then Some v else dict_lookup rest k
  end.

(* d.get(k): the value, or None *)
Definition dict_get (kvs : list (string * json)) (k : string) : json :=
  match dict_lookup kvs k with Some v => v | None => JNull end.

(* k in d *)
Definition dict_has (kvs : list (string * json)) (k : string) : bool :=
  match dict_lookup kvs k with Some _ => true | None => false end.

(* k in l, for a list l of JSON values and a str k *)
Definition list_has (l : list json) (k : string) : bool :=
  existsb (fun v => match v with JStr s => String.eqb s k | _ => false end) l.

(* k in s, for strings: substring test *)
Fixpoint str_has (s k : string) : bool :=
  String.prefix k s ||
  match s with
  | EmptyString => false
  | String _ s' => str_has s' k
  end.

(* s.replace(old, new) for a one-character [old] *)
Fixpoint str_replace (s : string) (old : ascii) (new : string) : string :=
  match s with
  | EmptyString => EmptyString
  | String c s' =>
      if Ascii.eqb c old then new +:+ str_replace s' old new
      else String c (str_replace s' old new)
  end.

Definition ascii_lower (c : ascii) : ascii :=
  let n := nat_of_ascii c in
  if (Nat.leb 65 n && Nat.leb n 90)%bool then ascii_of_nat (n + 32) else c.

(* s.lower() on ASCII letters *)
Fixpoint str_lower (s : string) : string :=
  match s with
  | EmptyString => EmptyString
  | String c s' => String (ascii_lower c) (str_lower s')
  end.

(* fnmatch with the wildcard '*' (the only one the patterns here use) *)
Fixpoint fnmatch (pat : string) (name : string) : bool :=
  match pat with
  | EmptyString => match name with EmptyString => true | _ => false end
  | String p pat' =>
      if Ascii.eqb p "*" then
        (fix star (n : string) : bool :=
           fnmatch pat' n ||
           match n with
           | EmptyString => false
           | String _ n' => star n'
           end) name
      else
        match name with
        | EmptyString => false
        | String c name' => Ascii.eqb p c && fnmatch pat' name'
        end
  end.

(* s.rfind('.') *)
Fixpoint rfind_dot (s : string) : option nat :=
  match s with
  | EmptyString => None
  | String c s' =>
      match rfind_dot s' with
      | Some i => Some (S i)
      | None => if Ascii.eqb c "." then Some O else None
      end
  end.

(* PurePath.suffix of a path whose final component is [name] *)
Definition path_suffix (name : string) : string :=
  match rfind_dot name with
  | Some i =>
      if (Nat.ltb 0 i && Nat.ltb i (String.length name - 1))%bool
      then String.substring i (String.length name - i) name
      else ""
  | None => ""
  end.

(* The pieces of a path between its slashes. *)
Fixpoint split_slash (s : string) : list string :=
  match s with
  | EmptyString => [EmptyString]
  | String c s' =>
      if Ascii.eqb c "/" then EmptyString :: split_slash s'
      else
        match split_slash s' with
        | piece :: rest => String c piece :: rest
        | [] => [String c EmptyString]
        end
  end.

(* The parts that a PurePosixPath keeps: no empty piece and no '.' *)
Definition path_parts (s : string) : list string :=
  filter (fun p => Is_true (negb (String.eqb p "") && negb (String.eqb p ".")))
    (split_slash s).

(* The root of a POSIX path: exactly two leading slashes are kept, any
   other number of them is one. *)
Definition path_root (s : string) : string :=
  match s with
  | String "/" (String "/" (String "/" _)) => "/"
  | String "/" (String "/" _) => "//"
  | String "/" _ => "/"
  | _ => ""
  end.

(* What str(Path(folder) / name) puts before the name. *)
Definition path_prefix (folder : string) : string :=
  path_root folder +:+
  foldr (fun part rest => part +:+ "/" +:+ rest) "" (path_parts folder).

(* str(Path(folder) / name), for the name of a directory entry *)
Definition path_str (folder name : string) : string :=
  path_prefix folder +:+ name.

(* The two parsers of the datetime library that main.py calls.  Their
   result is an interface here: None and inl stand for ValueError, inl
   carrying the message of the exception. *)
Class DatetimeLib := {
  strptime : string -> string -> option datetime;
  fromisoformat : string -> string + datetime
}.

(* A loop body either completes (also through continue) or raises. *)
Inductive outcome (S : Type) :=
| Done (s : S)
| Raised (e : exn) (s : S).
Arguments Done {S} s.
Arguments Raised {S} e s.

(* for x in xs: body *)
Fixpoint for_each {X S : Type} (body : X -> S -> outcome S)
  (xs : list X) (s : S) : outcome S :=
  match xs with
  | [] => Done s
  | x :: xs' =>
      match body x s with
      | Done s' => for_each body xs' s'
      | Raised e s' => Raised e s'
      end
  end.

(* d.setdefault(k, []).append(x) *)
Definition setdefault_append {K} `{Countable K} {A}
  (k : K) (x : A) (d : gmap K (list A)) : gmap K (list A) :=
  <[k := default [] (d !! k) ++ [x]]> d.

End Py.
Export Py.

(* --------------------------------------------------------------------- *)
(* Directories as the ingesters see them                                 *)
(* --------------------------------------------------------------------- *)

(* A folder and what Path(folder).glob(...) walks over, in the order the
   file system yields it. *)
Record directory (F : Type) := mk_directory {
  d_path : string;
  d_files : list F
}.
Arguments mk_directory {F} d_path d_files.
Arguments d_path {F} d.
Arguments d_files {F} d.

(* What open(file) followed by json.load(f) does: it returns a value, it
   raises json.JSONDecodeError, or it raises something else (the bytes are
   not UTF-8, the file cannot be opened, the nesting is too deep). *)
Inductive load_outcome :=
| Loaded (data : json)
| JSONDecodeError
| LoadRaises (e : exn).

(* An export file: its name and the outcome of loading it. *)
Record export_file := mk_export_file {
  f_name : string;
  f_json : load_outcome
}.

(* What exifread.process_file gives for the tag 'EXIF DateTimeOriginal':
   reading raises, or the tags come back with or without the tag. *)
Inductive exif_outcome :=
| ExifRaises
| ExifTags (date_time_original : option string).

(* An image file: its name, its EXIF outcome and what
   datetime.fromtimestamp(os.path.getmtime(path)) does: the time, or the
   exception of a file that cannot be examined (a dangling link) or of a
   time out of range. *)
Record photo_file := mk_photo_file {
  p_name : string;
  p_exif : exif_outcome;
  p_mtime : exn + datetime
}.

(* --------------------------------------------------------------------- *)
(* main.py: load_spotify_history                                         *)
(* --------------------------------------------------------------------- *)

(* The dict appended to a week's list. *)
Record event := mk_event {
  artist : json;
  track : json;
  timestamp : datetime;
  ms_played : json;
  uri : json
}.

(* The locals of load_spotify_history that outlive one loop iteration,
   and the lines printed so far.  [st_dt] is None while dt is unbound. *)
Record state := mk_state {
  st_tracks_by_week : gmap (Z * Z) (list event);
  st_dt : option datetime;
  st_stdout : list string
}.

Definition print (line : string) (st : state) : state :=
  mk_state (st_tracks_by_week st) (st_dt st) (st_stdout st ++ [line]).

Definition assign_dt (d : datetime) (st : state) : state :=
  mk_state (st_tracks_by_week st) (Some d) (st_stdout st).

Definition append_event (yw : Z * Z) (e : event) (st : state) : state :=
  mk_state (setdefault_append yw e (st_tracks_by_week st))
    (st_dt st) (st_stdout st).

Definition possible_list_keys : list string :=
  ["streaming_history"; "playback"; "plays"]%string.

(* The loop over possible_list_keys: the first key that is present and
   holds a list replaces data. *)
Fixpoint unwrap_list (kvs : list (string * json)) (keys : list string)
  : json :=
  match keys with
  | [] => JDict kvs
  | key :: keys' =>
      match dict_lookup kvs key with
      | Some (JList l) => JList l
      | _ => unwrap_list kvs keys'
      end
  end.

Section Ingest.
Context {lib : DatetimeLib}.

(* The try/except around the two parsers: dt is assigned by the first
   parser that accepts, and is left as it was when both refuse. *)
Definition parse_ts (ts : string) (st : state) : state :=
  match strptime ts "%Y-%m-%dT%H:%M:%SZ" with
  | Some d => assign_dt d st
  | None =>
      match fromisoformat (str_replace ts "Z" "+00:00") with
      | inr d => assign_dt d st
      | inl e => print ("Failed to parse timestamp: " +:+ e) st
      end
  end.

(* From year_week = get_year_week(dt) to the append, for a dict entry. *)
Definition bucket_entry (kvs : list (string * json)) (st : state)
  : outcome state :=
  match st_dt st with
  | None => Raised UnboundLocalError st
  | Some dt =>
      let year_week := get_year_week dt in
      let track_name := dict_get kvs "master_metadata_track_name" in
      let artist_name := dict_get kvs "master_metadata_album_artist_name" in
      let '(track_name, artist_name) :=
        if is_none track_name || is_none artist_name then
          (py_or (py_or track_name (dict_get kvs "episode_name"))
             (JStr "Unknown Track"),
           py_or (py_or artist_name (dict_get kvs "episode_show_name"))
             (JStr "Unknown Artist"))
        else (track_name, artist_name) in
      Done (append_event year_week
              (mk_event artist_name track_name dt
                 (dict_get kvs "ms_played")
                 (dict_get kvs "spotify_track_uri"))
              st)
  end.

(* The body of: for entry in data *)
Definition process_entry (entry : json) (st : state) : outcome state :=
  match entry with
  | JDict kvs =>
      match dict_lookup kvs "ts" with
      | None => Done st
      | Some (JStr ts) => bucket_entry kvs (parse_ts ts st)
      | Some _ => Raised TypeError st
      end
  | JList l => if list_has l "ts" then Raised TypeError st else Done st
  | JStr s => if str_has s "ts" then Raised TypeError st else Done st
  | JNull | JBool _ | JNum _ => Raised TypeError st
  end.

(* The body of: for file in Path(folder).glob('Streams*.json') *)
Definition process_file (folder : string) (file : export_file) (st : state)
  : outcome state :=
  match f_json file with
  | LoadRaises e => Raised e st
  | JSONDecodeError =>
      Done (print ("Skipping invalid JSON file: " +:+
                   path_str folder (f_name file)) st)
  | Loaded data =>
      let data :=
        match data with
        | JDict kvs => unwrap_list kvs possible_list_keys
        | _ => data
        end in
      match data with
      | JList l => for_each process_entry l st
      | _ =>
          Done (print ("Skipping unexpected format in file: " +:+
                       path_str folder (f_name file)) st)
      end
  end.

Definition glob_streams (folder : directory export_file)
  : list export_file :=
  filter (fun f => Is_true (fnmatch "Streams*.json" (f_name f)))
    (d_files folder).

(* load_spotify_history(folder), run with [out] already printed: what it
   returns or raises, and the lines printed by then. *)
Definition load_spotify_history (folder : directory export_file)
  (out : list string)
  : (exn + gmap (Z * Z) (list event)) * list string :=
  match for_each (process_file (d_path folder)) (glob_streams folder)
          (mk_state ∅ None out) with
  | Done st => (inr (st_tracks_by_week st), st_stdout st)
  | Raised e st => (inl e, st_stdout st)
  end.

(* --------------------------------------------------------------------- *)
(* main.py: get_photo_date, load_photos                                  *)
(* --------------------------------------------------------------------- *)

(* The try block of get_photo_date: the parsed tag, or None when the block
   does not return (no tag, or an exception that the except swallows). *)
Definition exif_date (f : photo_file) : option datetime :=
  match p_exif f with
  | ExifRaises => None
  | ExifTags None => None
  | ExifTags (Some datestr) => strptime datestr "%Y:%m:%d %H:%M:%S"
  end.

Definition get_photo_date (f : photo_file) : exn + datetime :=
  match exif_date f with
  | Some d => inr d
  | None => p_mtime f
  end.

Definition is_jpeg (f : photo_file) : bool :=
  let suffix := str_lower (path_suffix (p_name f)) in
  String.eqb suffix ".jpg" || String.eqb suffix ".jpeg".

Definition glob_any (folder : directory photo_file) : list photo_file :=
  filter (fun f => Is_true (fnmatch "*.*" (p_name f))) (d_files folder).

(* The body of: for imgfile in Path(folder).glob('*.*') *)
Definition add_photo (folder : string) (imgfile : photo_file)
  (photos_by_week : gmap (Z * Z) (list string))
  : outcome (gmap (Z * Z) (list string)) :=
  if negb (is_jpeg imgfile) then Done photos_by_week
  else
    match get_photo_date imgfile with
    | inl e => Raised e photos_by_week
    | inr dt =>
        let yw := get_year_week dt in
        Done (setdefault_append yw (path_str folder (p_name imgfile))
                photos_by_week)
    end.

(* load_photos(folder): the dict it returns, or the exception it raises. *)
Definition load_photos (folder : directory photo_file)
  : exn + gmap (Z * Z) (list string) :=
  match for_each (add_photo (d_path folder)) (glob_any folder) ∅ with
  | Done photos_by_week => inr photos_by_week
  | Raised e _ => inl e
  end.

End Ingest.

(* --------------------------------------------------------------------- *)
(* The random module: programs that draw, and two ways to read them      *)
(* --------------------------------------------------------------------- *)

Module Random.

(* A computation that may call randbelow(n), return or raise. *)
Inductive rand (A : Type) :=
| Ret (a : A)
| Raise (e : exn)
| RandBelow (n : nat) (k : nat -> rand A).
Arguments Ret {A} a.
Arguments Raise {A} e.
Arguments RandBelow {A} n k.

Fixpoint bind {A B} (p : rand A) (f : A -> rand B) : rand B :=
  match p with
  | Ret a => f a
  | Raise e => Raise e
  | RandBelow n k => RandBelow n (fun i => bind (k i) f)
  end.

(* random.choice(seq): IndexError on an empty sequence, else
   seq[randbelow(len(seq))]. *)
Definition choice {A} (seq : list A) : rand A :=
  match seq with
  | [] => Raise IndexError
  | _ =>
      RandBelow (length seq)
        (fun i => match seq !! i with
                  | Some x => Ret x
                  | None => Raise IndexError
                  end)
  end.

(* An injectable generator: randbelow(n) yields a number below n. *)
Class RandomSource (G : Type) := {
  randbelow : nat -> G -> nat * G;
  randbelow_lt : forall n g, (0 < n)%nat -> (fst (randbelow n g) < n)%nat
}.

(* Running a program against a generator. *)
Fixpoint run {A G} {src : RandomSource G} (p : rand A) (g : G) : (exn + A) * G :=
  match p with
  | Ret a => (inr a, g)
  | Raise e => (inl e, g)
  | RandBelow n k => let '(i, g') := randbelow n g in run (k i) g'
  end.

Definition Qc_of_nat (n : nat) : Qc := Q2Qc (inject_Z (Z.of_nat n)).

Fixpoint Qc_sum (l : list Qc) : Qc :=
  match l with
  | [] => Q2Qc 0
  | q :: l' => (q + Qc_sum l')%Qc
  end.

(* The expectation of [h] over the results of the program, when every
   randbelow(n) is uniform on 0 .. n-1 and the draws are independent; a
   run that raises counts for nothing. *)
Fixpoint expect {A} (p : rand A) (h : A -> Qc) : Qc :=
  match p with
  | Ret a => h a
  | Raise _ => Q2Qc 0
  | RandBelow n k =>
      (Qc_sum (map (fun i => expect (k i) h) (seq 0 n)) / Qc_of_nat n)%Qc
  end.

Definition indicator (b : bool) : Qc := if b then Q2Qc 1 else Q2Qc 0.

(* The probability that the program returns a value satisfying [ev]. *)
Definition prob {A} (p : rand A) (ev : A -> bool) : Qc :=
  expect p (fun a => indicator (ev a)).

(* The measure of [ev] under the uniform distribution on the positions of
   a list. *)
Definition uniform_on {A} (l : list A) (ev : A -> bool) : Qc :=
  (Qc_of_nat (length (filter (fun x => Is_true (ev x)) l))
   / Qc_of_nat (length l))%Qc.

End Random.
Export Random.

(* --------------------------------------------------------------------- *)
(* main.py: get_random_photo_and_song, MemoryMachine.next_item           *)
(* --------------------------------------------------------------------- *)

Section Sampler.
Context {T P : Type}.

(* list(set(tracks.keys()) & set(photos.keys())) *)
Definition common_weeks (tracks : gmap (Z * Z) (list T))
  (photos : gmap (Z * Z) (list P)) : list (Z * Z) :=
  elements (dom tracks ∩ dom photos).

(* d[k] *)
Definition getitem {V} (d : gmap (Z * Z) V) (k : Z * Z) : rand V :=
  match d !! k with
  | Some v => Ret v
  | None => Raise KeyError
  end.

Definition get_random_photo_and_song (tracks : gmap (Z * Z) (list T))
  (photos : gmap (Z * Z) (list P)) : rand (T * P * (Z * Z)) :=
  bind (choice (common_weeks tracks photos)) (fun week =>
  bind (getitem tracks week) (fun week_tracks =>
  bind (choice week_tracks) (fun track =>
  bind (getitem photos week) (fun week_photos =>
  bind (choice week_photos) (fun photo =>
  Ret (track, photo, week)))))).

(* The lines of get_random_photo_and_song after the week is drawn; used
   to reason about the sampler one draw at a time. *)
Definition draw_in_week (tracks : gmap (Z * Z) (list T))
  (photos : gmap (Z * Z) (list P)) (week : Z * Z)
  : rand (T * P * (Z * Z)) :=
  bind (getitem tracks week) (fun week_tracks =>
  bind (choice week_tracks) (fun track =>
  bind (getitem photos week) (fun week_photos =>
  bind (choice week_photos) (fun photo =>
  Ret (track, photo, week))))).


(* The module globals tracks and photos, the attributes that next_item
   sets, and the generator. *)
Record machine (G : Type) := mk_machine {
  tracks : gmap (Z * Z) (list T);
  photos : gmap (Z * Z) (list P);
  current_track : option T;
  current_photo : option P;
  current_week : option (Z * Z);
  generator : G
}.
Arguments mk_machine {G}.
Arguments tracks {G} m.
Arguments photos {G} m.
Arguments current_track {G} m.
Arguments current_photo {G} m.
Arguments current_week {G} m.
Arguments generator {G} m.

(* next_item up to the hand-over to play_audio and show_image: the sample
   is drawn and stored, or the exception leaves the attributes alone. *)
Definition next_item {G} {src : RandomSource G} (m : machine G)
  : option exn * machine G :=
  match run (get_random_photo_and_song (tracks m) (photos m))
          (generator m) with
  | (inr (track, photo, week), g) =>
      (None, mk_machine (tracks m) (photos m)
               (Some track) (Some photo) (Some week) g)
  | (inl e, g) =>
      (Some e, mk_machine (tracks m) (photos m)
                 (current_track m) (current_photo m) (current_week m) g)
  end.

End Sampler.
Arguments machine T P G : clear implicits.
Arguments mk_machine {T P G}.
Arguments tracks {T P G} m.
Arguments photos {T P G} m.
Arguments current_track {T P G} m.
Arguments current_photo {T P G} m.
Arguments current_week {T P G} m.
Arguments generator {T P G} m.

(* --------------------------------------------------------------------- *)
(* Instances used to evaluate the program on concrete inputs             *)
(* --------------------------------------------------------------------- *)

Module FixedWidth.

Definition digit (c : ascii) : option Z :=
  let n := nat_of_ascii c in
  if (Nat.leb 48 n && Nat.leb n 57)%bool then Some (Z.of_nat n - 48)
  else None.

(* [n] decimal digits at the head of [s], and the rest. *)
Fixpoint number (n : nat) (acc : Z) (s : string) : option (Z * string) :=
  match n with
  | O => Some (acc, s)
  | S n' =>
      match s with
      | String c s' =>
          match digit c with
          | Some d => number n' (acc * 10 + d) s'
          | None => None
          end
      | EmptyString => None
      end
  end.

Definition literal (c : ascii) (s : string) : option string :=
  match s with
  | String c' s' => if Ascii.eqb c c' then Some s' else None
  | EmptyString => None
  end.

(* YYYY d MM d DD t HH:MM:SS, and the rest of the string. *)
Definition date_time (d t : ascii) (s : string)
  : option (datetime * string) :=
  '(y, s) ← number 4 0 s; s ← literal d s;
  '(mo, s) ← number 2 0 s; s ← literal d s;
  '(dd, s) ← number 2 0 s; s ← literal t s;
  '(h, s) ← number 2 0 s; s ← literal ":" s;
  '(mi, s) ← number 2 0 s; s ← literal ":" s;
  '(sec, s) ← number 2 0 s;
  if (1 <=? y) && (1 <=? mo) && (mo <=? 12) && (1 <=? dd)
     && (dd <=? _days_in_month y mo) && (h <? 24) && (mi <? 60)
     && (sec <? 60)
  then Some (mk_datetime y mo dd h mi sec 0 None, s)
  else None.

Definition strptime (s fmt : string) : option datetime :=
  if String.eqb fmt "%Y-%m-%dT%H:%M:%SZ" then
    '(d, rest) ← date_time "-" "T" s;
    if String.eqb rest "Z" then Some d else None
  else if String.eqb fmt "%Y:%m:%d %H:%M:%S" then
    '(d, rest) ← date_time ":" " " s;
    if String.eqb rest "" then Some d else None
  else None.

Definition with_offset (d : datetime) (minutes : Z) : datetime :=
  mk_datetime (year d) (month d) (day d) (hour d) (minute d) (second d)
    (microsecond d) (Some minutes).

Definition offset (s : string) : option Z :=
  match s with
  | String sign s =>
      '(h, s) ← number 2 0 s; s ← literal ":" s;
      '(m, s) ← number 2 0 s;
      if String.eqb s "" && (h <? 24) && (m <? 60) then
        if Ascii.eqb sign "+" then Some (h * 60 + m)
        else if Ascii.eqb sign "-" then Some (- (h * 60 + m))
        else None
      else None
  | EmptyString => None
  end.

Definition fromisoformat (s : string) : string + datetime :=
  match
    '(d, rest) ← date_time "-" "T" s;
    if String.eqb rest "" then Some d
    else minutes ← offset rest; Some (with_offset d minutes)
  with
  | Some d => inr d
  | None => inl ("Invalid isoformat string: '" +:+ s +:+ "'")
  end.

(* The parsers restricted to the zero-padded, fixed-width strings of each
   format; every other string is refused. *)
#[export] Instance lib : DatetimeLib :=
  {| Py.strptime := strptime; Py.fromisoformat := fromisoformat |}.

End FixedWidth.

Module Replay.

(* A generator that replays recorded draws, each reduced below n. *)
Definition randbelow (n : nat) (g : list nat) : nat * list nat :=
  match g with
  | [] => (O, [])
  | r :: g' => (r mod n, g')%nat
  end.

#[export] Instance source : RandomSource (list nat).
Proof.
  refine {| Random.randbelow := randbelow |}.
  intros n g Hn. destruct g as [| r g']; simpl; [exact Hn |].
  apply Nat.mod_upper_bound. lia.
Defined.

End Replay.

(* --------------------------------------------------------------------- *)
(* Predicates of the statements                                          *)
(* --------------------------------------------------------------------- *)

(* No key of a bucket collection maps to an empty list. *)
Definition nonempty_buckets {A} (d : gmap (Z * Z) (list A)) : Prop :=
  forall k l, d !! k = Some l -> l <> [].

Definition outcome_state {S} (r : outcome S) : S :=
  match r with
  | Done s => s
  | Raised _ s => s
  end.

(* Two outcomes end the same way, in states related by [R]. *)
Definition outcome_rel {S} (R : S -> S -> Prop) (r r' : outcome S) : Prop :=
  match r, r' with
  | Done s, Done s' => R s s'
  | Raised e s, Raised e' s' => e = e' /\ R s s'
  | _, _ => False
  end.

Definition buckets_ok (st : state) : Prop :=
  nonempty_buckets (st_tracks_by_week st).

(* The state [st'] has printed what [st] has, and possibly more. *)
Definition stdout_extends (st st' : state) : Prop :=
  exists new, st_stdout st' = st_stdout st ++ new.

(* Two states of load_spotify_history that differ at most in what has
   been printed. *)
Definition agree (st st' : state) : Prop :=
  st_tracks_by_week st = st_tracks_by_week st' /\ st_dt st = st_dt st'.

(* The list of records of an export, when its top-level shape is one of
   the two that the ingester reads. *)
Definition records_of (data : json) : option (list json) :=
  match data with
  | JList l => Some l
  | JDict kvs =>
      match unwrap_list kvs possible_list_keys with
      | JList l => Some l
      | _ => None
      end
  | _ => None
  end.

(* A malformed export file: the JSON does not parse, or its top-level
   shape is not recognised. *)
Definition malformed (f : export_file) : bool :=
  match f_json f with
  | JSONDecodeError => true
  | Loaded data =>
      match records_of data with
      | None => true
      | Some _ => false
      end
  | LoadRaises _ => false
  end.

(* The line printed when a malformed file is skipped. *)
Definition diagnostic (folder : string) (f : export_file) : string :=
  match f_json f with
  | Loaded _ =>
      "Skipping unexpected format in file: " +:+ path_str folder (f_name f)
  | _ => "Skipping invalid JSON file: " +:+ path_str folder (f_name f)
  end.

(* The directory without its malformed files. *)
Definition valid_only (folder : directory export_file)
  : directory export_file :=
  mk_directory (d_path folder)
    (filter (fun f => Is_true (negb (malformed f))) (d_files folder)).

Section WellFormed.
Context {lib : DatetimeLib}.

(* One of the two parsers accepts the timestamp. *)
Definition resolvable (ts : string) : Prop :=
  is_Some (strptime ts "%Y-%m-%dT%H:%M:%SZ") \/
  exists d, fromisoformat (str_replace ts "Z" "+00:00") = inr d.

(* A record of a well-formed export: an object whose 'ts', when it has
   one, is a string that resolves. *)
Definition well_formed_record (r : json) : Prop :=
  exists kvs, r = JDict kvs /\
    match dict_lookup kvs "ts" with
    | None => True
    | Some (JStr ts) => resolvable ts
    | Some _ => False
    end.

(* A well-formed export file: the JSON parses, the shape is recognised and
   every record is well-formed. *)
Definition well_formed (f : export_file) : Prop :=
  exists data l, f_json f = Loaded data /\ records_of data = Some l /\
    Forall well_formed_record l.

(* The files that load_photos keeps under the week [k]: the .jpg/.jpeg
   files whose date resolves to a day of that week. *)
Definition in_week (k : Z * Z) (f : photo_file) : Prop :=
  Is_true (is_jpeg f) /\
  match get_photo_date f with
  | inr d => get_year_week d = k
  | inl _ => False
  end.

#[global] Instance in_week_dec k f : Decision (in_week k f).
Proof. unfold in_week. destruct (get_photo_date f); apply _. Defined.

(* The resolution order of get_photo_date, spelt out: the embedded tag
   when it is there and parses, else the modification time, which may
   fail to be read. *)
Definition resolved_timestamp (f : photo_file) : exn + datetime :=
  match p_exif f with
  | ExifTags (Some datestr) =>
      match strptime datestr "%Y:%m:%d %H:%M:%S" with
      | Some d => inr d
      | None => p_mtime f
      end
  | _ => p_mtime f
  end.

(* The entries of the photo buckets carry the resolved timestamp: it can
   be read off the stored entry of every bucketed photo. *)
Definition entries_carry_timestamp : Prop :=
  exists timestamp_of : string -> datetime,
    forall (folder : directory photo_file) buckets (f : photo_file) k l d,
      load_photos folder = inr buckets ->
      buckets !! k = Some l ->
      f ∈ glob_any folder -> Is_true (is_jpeg f) ->
      path_str (d_path folder) (p_name f) ∈ l ->
      get_photo_date f = inr d ->
      timestamp_of (path_str (d_path folder) (p_name f)) = d.


End WellFormed.

(* --------------------------------------------------------------------- *)
(* Concrete exports and folders                                          *)
(* --------------------------------------------------------------------- *)

Module Samples.

Definition played : json :=
  JDict [("ts", JStr "2024-03-04T10:00:00Z");
         ("master_metadata_track_name", JStr "Song");
         ("master_metadata_album_artist_name", JStr "Band");
         ("ms_played", JNum 1000);
         ("spotify_track_uri", JStr "spotify:track:1")]%string.

(* A record whose 'ts' neither parser accepts. *)
Definition garbled : json :=
  JDict [("ts", JStr "garbage");
         ("master_metadata_track_name", JStr "Other");
         ("master_metadata_album_artist_name", JStr "Band")]%string.

Definition monday : datetime := mk_datetime 2024 3 4 10 0 0 0 None.
Definition tuesday : datetime := mk_datetime 2024 3 5 9 30 0 0 None.

Definition played_event : event :=
  mk_event (JStr "Band") (JStr "Song") monday (JNum 1000)
    (JStr "spotify:track:1").

(* The event that the garbled record leaves in the buckets: it has the
   timestamp of the record before it. *)
Definition stale_event : event :=
  mk_event (JStr "Band") (JStr "Other") monday JNull JNull.

Definition stale_folder : directory export_file :=
  mk_directory "/history"
    [mk_export_file "Streams1.json" (Loaded (JList [played; garbled]))].

Definition unbound_folder : directory export_file :=
  mk_directory "/history"
    [mk_export_file "Streams1.json" (Loaded (JList [garbled; played]))].

Definition mixed_folder : directory export_file :=
  mk_directory "/history"
    [mk_export_file "Streams0.json" JSONDecodeError;
     mk_export_file "Streams1.json" (Loaded (JList [played]));
     mk_export_file "Streams2.json" (Loaded (JStr "plays"));
     mk_export_file "Notes.json" JSONDecodeError].

(* A file whose bytes are not UTF-8, listed before a sound export. *)
Definition undecodable_folder : directory export_file :=
  mk_directory "/history/"
    [mk_export_file "Streams0.json" (LoadRaises UnicodeDecodeError);
     mk_export_file "Streams1.json" (Loaded (JList [played]))].

Definition shot (name : string) (mtime : datetime) : photo_file :=
  mk_photo_file name (ExifTags None) (inr mtime).

Definition album : directory photo_file :=
  mk_directory "/photos"
    [mk_photo_file "a.JPG" (ExifTags (Some "2024:03:05 09:30:00"%string))
       (inr (mk_datetime 2020 1 1 0 0 0 0 None));
     mk_photo_file "b.jpeg" ExifRaises (inr monday);
     mk_photo_file "c.png" ExifRaises (inr monday)].



Definition album_monday : directory photo_file :=
  mk_directory "/photos" [shot "a.jpg" monday].

Definition album_tuesday : directory photo_file :=
  mk_directory "/photos" [shot "a.jpg" tuesday].

End Samples.

(* --------------------------------------------------------------------- *)
(* Further predicates of the statements                                  *)
(* --------------------------------------------------------------------- *)

(* Every entry of every bucket satisfies [phi], which may look at the
   bucket's key. *)
Definition all_entries {A} (phi : Z * Z -> A -> Prop)
  (d : gmap (Z * Z) (list A)) : Prop :=
  forall k l e, d !! k = Some l -> e ∈ l -> phi k e.

(* [d'] has every bucket of [d], each with the same entries in front. *)
Definition buckets_extend {A} (d d' : gmap (Z * Z) (list A)) : Prop :=
  forall k l, d !! k = Some l -> exists l', d' !! k = Some (l ++ l').

(* An object without a 'ts' member. *)
Definition untimed (entry : json) : bool :=
  match entry with
  | JDict kvs => negb (dict_has kvs "ts")
  | _ => false
  end.


(* An event as the buckets hold it: filed under the week of its own
   timestamp, with an artist and a track that are not None. *)
Definition filed (k : Z * Z) (e : event) : Prop :=
  get_year_week (timestamp e) = k /\ artist e <> JNull /\ track e <> JNull.

(* The arguments of the successive randbelow calls of a run. *)
Fixpoint bounds {A G} {src : RandomSource G} (p : rand A) (g : G)
  : list nat :=
  match p with
  | Ret _ => []
  | Raise _ => []
  | RandBelow n k => let '(i, g') := randbelow n g in n :: bounds (k i) g'
  end.

(* The number of entries of a bucket collection, all buckets together. *)
Definition total_entries {A} (d : gmap (Z * Z) (list A)) : nat :=
  map_fold (fun _ l n => (length l + n)%nat) O d.

(* A glob pattern without the wildcard. *)
Fixpoint star_free (pat : string) : bool :=
  match pat with
  | EmptyString => true
  | String c pat' => negb (Ascii.eqb c "*") && star_free pat'
  end.

(* --------------------------------------------------------------------- *)
(* main.py: SONG_START_MS, MemoryMachine.play_audio, and next_item up to *)
(* the call of show_image                                                *)
(* --------------------------------------------------------------------- *)

Definition SONG_START_MS : Z := 30000.

(* v[k] for a str k *)
Definition getitem_str (v : json) (k : string) : exn + json :=
  match v with
  | JDict kvs =>
      match dict_lookup kvs k with
      | Some x => inr x
      | None => inl KeyError
      end
  | _ => inl TypeError
  end.

(* v[0], for a v that is truthy (a list or a string is then not empty) *)
Definition getitem_0 (v : json) : exn + json :=
  match v with
  | JList (x :: _) => inr x
  | JList [] => inl IndexError
  | JStr (String c _) => inr (JStr (String c EmptyString))
  | JStr EmptyString => inl IndexError
  | JDict _ => inl KeyError
  | _ => inl TypeError
  end.

(* One call of sp.start_playback. *)
Record playback := mk_playback {
  device_id : json;
  uris : list json;
  position_ms : Z
}.

(* What the player has printed and the playbacks it has started. *)
Record player := mk_player {
  p_stdout : list string;
  p_started : list playback
}.

Definition no_device_message : string :=
  "No active Spotify devices. Try opening Spotify on your computer or phone and playing a song.".

(* play_audio, given what sp.devices() answers. *)
Definition play_audio (devices : json) (spotify_uri : json)
  (position : Z) (pl : player) : option exn * player :=
  let no_device :=
    (None, mk_player (p_stdout pl ++ [no_device_message]) (p_started pl)) in
  if negb (truthy devices) then no_device
  else
    match getitem_str devices "devices" with
    | inl e => (Some e, pl)
    | inr listed =>
        if negb (truthy listed) then no_device
        else
          match getitem_0 listed with
          | inl e => (Some e, pl)
          | inr first =>
              match getitem_str first "id" with
              | inl e => (Some e, pl)
              | inr id =>
                  (None,
                   mk_player (p_stdout pl)
                     (p_started pl ++ [mk_playback id [spotify_uri] position]))
              end
          end
    end.

(* next_item with the machine of the program (events and paths), through
   the call of play_audio; show_image comes after it. *)
Definition next_item_play {G} {src : RandomSource G}
  (m : machine event string G) (devices : json) (pl : player)
  : option exn * machine event string G * player :=
  match next_item m with
  | (Some e, m') => (Some e, m', pl)
  | (None, m') =>
      match current_track m' with
      | Some track =>
          let '(r, pl') := play_audio devices (uri track) SONG_START_MS pl in
          (r, m', pl')
      | None => (None, m', pl)
      end
  end.

(* The attributes of the machine name a week of both collections, a track
   of that week and a photo of that week, or are all unset. *)
Definition attributes_sound {T P G} (m : machine T P G) : Prop :=
  match current_track m, current_photo m, current_week m with
  | None, None, None => True
  | Some t, Some p, Some w =>
      (exists l, tracks m !! w = Some l /\ t ∈ l) /\
      (exists l, photos m !! w = Some l /\ p ∈ l)
  | _, _, _ => False
  end.

(* next_item applied n times, each call to the machine that the call
   before it left. *)
Fixpoint press {T P G} {src : RandomSource G} (n : nat) (m : machine T P G)
  : machine T P G :=
  match n with
  | O => m
  | S n' => press n' (next_item m).2
  end.

(* --------------------------------------------------------------------- *)
(* Where the names of an event come from                                 *)
(* --------------------------------------------------------------------- *)

(* The first value of the list that is truthy, else the default: what a
   chain of 'or' ends on. *)
Fixpoint first_truthy (vs : list json) (default : json) : json :=
  match vs with
  | [] => default
  | v :: vs' => if truthy v then v else first_truthy vs' default
  end.

(* The artist and track that the record [kvs] gives its event: the two
   master_metadata names when neither is None; otherwise, for each of the
   two, the name if truthy, else the episode field if truthy, else the
   placeholder. *)
Definition named_from (kvs : list (string * json)) (e : event) : Prop :=
  let track_name := dict_get kvs "master_metadata_track_name" in
  let artist_name := dict_get kvs "master_metadata_album_artist_name" in
  (track_name <> JNull /\ artist_name <> JNull /\
   track e = track_name /\ artist e = artist_name) \/
  ((track_name = JNull \/ artist_name = JNull) /\
   track e = first_truthy [track_name; dict_get kvs "episode_name"]
               (JStr "Unknown Track") /\
   artist e = first_truthy [artist_name; dict_get kvs "episode_show_name"]
                (JStr "Unknown Artist")).

(* The object [kvs] is a record of one of the exports that the glob
   yields. *)
Definition recorded (folder : directory export_file)
  (kvs : list (string * json)) : Prop :=
  exists f data l,
    f ∈ glob_streams folder /\ f_json f = Loaded data /\
    records_of data = Some l /\ JDict kvs ∈ l.

(* An event of a podcast episode, and the folder that holds it. *)
Definition episode : json :=
  JDict [("ts", JStr "2024-03-05T09:30:00Z");
         ("master_metadata_track_name", JNull);
         ("master_metadata_album_artist_name", JNull);
         ("episode_name", JStr "Pilot");
         ("episode_show_name", JStr "The Show")]%string.

Definition episode_event : event :=
  mk_event (JStr "The Show") (JStr "Pilot")
    (mk_datetime 2024 3 5 9 30 0 0 None) JNull JNull.

Definition episode_folder : directory export_file :=
  mk_directory "/history/"
    [mk_export_file "Streams1.json"
       (Loaded (JDict [("plays"%string, JList [episode])]))].

Example get_year_week_2020_12_28 :
  get_year_week (mk_datetime 2020 12 28 0 0 0 0 None) = (2020, 53).
Proof. reflexivity. Qed.

Example get_year_week_2021_01_01 :
  get_year_week (mk_datetime 2021 1 1 0 0 0 0 None) = (2020, 53).
Proof. reflexivity. Qed.

Example monday_2024_03_04 :
  weekday_of_ordinal (toordinal (mk_datetime 2024 3 4 0 0 0 0 None)) = 0.
Proof. reflexivity. Qed.

Example friday_2021_01_01 :
  weekday_of_ordinal (toordinal (mk_datetime 2021 1 1 0 0 0 0 None)) = 4.
Proof. reflexivity. Qed.

Example suffixes :
  path_suffix "IMG_0001.JPG" = ".JPG"%string /\
  path_suffix "archive.tar.jpeg" = ".jpeg"%string /\
  path_suffix ".jpg" = ""%string /\
  path_suffix "trailing." = ""%string /\
  path_suffix "plain" = ""%string.
Proof. repeat split. Qed.

Example globs :
  fnmatch "Streams*.json" "Streams.json" = true /\
  fnmatch "Streams*.json" "streams1.json" = false /\
  fnmatch "Streams*.json" "Streams1.json.bak" = false /\
  fnmatch "*.*" "a.jpg" = true /\
  fnmatch "*.*" "README" = false.
Proof. repeat split. Qed.

Example get_year_week_2024_12_30 :
  get_year_week (mk_datetime 2024 12 30 0 0 0 0 None) = (2025, 1).
Proof. reflexivity. Qed.

(* --------------------------------------------------------------------- *)
(* Calendar facts                                                        *)
(* --------------------------------------------------------------------- *)

Section CalendarFacts.

Lemma year_length (y : Z) :
  _days_before_year (y + 1) - _days_before_year y =
  if _is_leap y then 366 else 365.
Proof.
  unfold _days_before_year, _is_leap.
  replace (y + 1 - 1) with y by lia.
  destruct (y mod 4 =? 0) eqn:E4, (y mod 100 =? 0) eqn:E100,
    (y mod 400 =? 0) eqn:E400; simpl;
    rewrite ?Z.eqb_eq, ?Z.eqb_neq in *;
    Z.div_mod_to_equations; lia.
Qed.

Lemma jan1_ordinal (y : Z) : _ymd2ord y 1 1 = _days_before_year y + 1.
Proof. unfold _ymd2ord, _days_before_month. simpl. lia. Qed.

Lemma day_of_year_bounds (y m d : Z) :
  1 <= m <= 12 -> 1 <= d <= _days_in_month y m ->
  1 <= _days_before_month y m + d <= if _is_leap y then 366 else 365.
Proof.
  intros Hm Hd. unfold _days_in_month, _days_before_month in *.
  assert (Hcases : m = 1 \/ m = 2 \/ m = 3 \/ m = 4 \/ m = 5 \/ m = 6 \/
                   m = 7 \/ m = 8 \/ m = 9 \/ m = 10 \/ m = 11 \/ m = 12)
    by lia.
  destruct (_is_leap y);
    repeat (destruct Hcases as [-> | Hcases]); try subst m;
    simpl in *; lia.
Qed.

Lemma toordinal_in_year (dt : datetime) :
  valid_date dt ->
  _days_before_year (year dt) < toordinal dt <=
  _days_before_year (year dt + 1).
Proof.
  intros (_ & Hm & Hd).
  pose proof (day_of_year_bounds _ _ _ Hm Hd) as Hb.
  pose proof (year_length (year dt)) as Hl.
  unfold toordinal, _ymd2ord.
  destruct (_is_leap (year dt)); lia.
Qed.

(* The Monday of week 1 is the Monday within three days of 1 January. *)
Lemma isoweek1monday_spec (y : Z) :
  weekday_of_ordinal (_isoweek1monday y) = 0 /\
  _ymd2ord y 1 1 - 3 <= _isoweek1monday y <= _ymd2ord y 1 1 + 3.
Proof.
  unfold _isoweek1monday, weekday_of_ordinal, THURSDAY.
  set (j := _ymd2ord y 1 1). cbv zeta.
  destruct (3 <? (j + 6) mod 7) eqn:E;
    rewrite ?Z.ltb_lt, ?Z.ltb_ge in E;
    Z.div_mod_to_equations; lia.
Qed.

Lemma first_thursday_isoweek1monday (y : Z) :
  ISO8601.first_thursday y (_isoweek1monday y + 3).
Proof.
  destruct (isoweek1monday_spec y) as [Hw Hr].
  unfold ISO8601.first_thursday, weekday_of_ordinal, THURSDAY in *.
  split; [Z.div_mod_to_equations; lia | lia].
Qed.

Lemma first_thursday_unique (y t t' : Z) :
  ISO8601.first_thursday y t -> ISO8601.first_thursday y t' -> t = t'.
Proof.
  unfold ISO8601.first_thursday, weekday_of_ordinal.
  intros [H1 H2] [H3 H4]. Z.div_mod_to_equations. lia.
Qed.

End CalendarFacts.

Section WeekKey.

Lemma get_year_week_week_of (dt : datetime) :
  valid_date dt -> ISO8601.week_of (toordinal dt) (get_year_week dt).
Proof.
  intros Hv.
  pose proof (toordinal_in_year dt Hv) as Hin.
  pose proof (year_length (year dt)) as Hlen.
  pose proof (year_length (year dt - 1)) as Hprev.
  replace (year dt - 1 + 1) with (year dt) in Hprev by lia.
  pose proof (isoweek1monday_spec (year dt)) as [Hm0 Hr0].
  pose proof (isoweek1monday_spec (year dt + 1)) as [Hm1 Hr1].
  pose proof (isoweek1monday_spec (year dt - 1)) as [Hm2 Hr2].
  pose proof (first_thursday_isoweek1monday (year dt)) as Ht0.
  pose proof (first_thursday_isoweek1monday (year dt + 1)) as Ht1.
  pose proof (first_thursday_isoweek1monday (year dt - 1)) as Ht2.
  rewrite jan1_ordinal in Hr0, Hr1, Hr2.
  unfold get_year_week, isocalendar, ISO8601.week_of.
  set (o := toordinal dt) in *.
  set (m0 := _isoweek1monday (year dt)) in *.
  set (m1 := _isoweek1monday (year dt + 1)) in *.
  set (m2 := _isoweek1monday (year dt - 1)) in *.
  unfold weekday_of_ordinal in *.
  cbv zeta. clearbody o m0 m1 m2.
  destruct ((o - m0) / 7 <? 0) eqn:E1.
  - apply Z.ltb_lt in E1. cbn [fst snd].
    exists (m2 + 3), (m0 + 3).
    replace (year dt - 1 + 1) with (year dt) by lia.
    repeat split; try apply Ht2; try apply Ht0.
    + destruct (_is_leap (year dt - 1)), (_is_leap (year dt));
        Z.div_mod_to_equations; lia.
    + Z.div_mod_to_equations; lia.
    + f_equal. f_equal. lia.
  - apply Z.ltb_ge in E1.
    destruct ((52 <=? (o - m0) / 7) && (m1 <=? o)) eqn:E2.
    + apply andb_true_iff in E2 as [E2 E3].
      apply Z.leb_le in E2, E3. cbn [fst snd].
      exists (m1 + 3), (_isoweek1monday (year dt + 1 + 1) + 3).
      pose proof (isoweek1monday_spec (year dt + 1 + 1)) as [Hm3 Hr3].
      pose proof (year_length (year dt + 1)) as Hnext.
      rewrite jan1_ordinal in Hr3.
      repeat split; try apply Ht1;
        try apply first_thursday_isoweek1monday.
      * lia.
      * destruct (_is_leap (year dt)), (_is_leap (year dt + 1)); lia.
      * Z.div_mod_to_equations; lia.
    + apply andb_false_iff in E2. cbn [fst snd].
      exists (m0 + 3), (m1 + 3).
      repeat split; try apply Ht0; try apply Ht1.
      * Z.div_mod_to_equations; lia.
      * destruct E2 as [E2 | E2];
          [apply Z.leb_gt in E2 | apply Z.leb_gt in E2; lia].
        unfold weekday_of_ordinal in *.
        destruct (_is_leap (year dt));
          Z.div_mod_to_equations; lia.
      * f_equal. f_equal. lia.
Qed.

Lemma days_before_year_mono (y y' : Z) :
  y <= y' -> _days_before_year y <= _days_before_year y'.
Proof.
  intros Hle. replace y' with (y + Z.of_nat (Z.to_nat (y' - y))) by lia.
  induction (Z.to_nat (y' - y)) as [| n IH].
  - replace (y + Z.of_nat 0) with y by lia. lia.
  - replace (y + Z.of_nat (S n)) with (y + Z.of_nat n + 1) by lia.
    pose proof (year_length (y + Z.of_nat n)) as Hl.
    destruct (_is_leap (y + Z.of_nat n)); lia.
Qed.

Lemma first_thursday_mono (y y' t t' : Z) :
  y <= y' -> ISO8601.first_thursday y t -> ISO8601.first_thursday y' t' ->
  t <= t'.
Proof.
  intros Hle [Hw Hr] [Hw' Hr'].
  pose proof (days_before_year_mono y y' Hle) as Hm.
  rewrite jan1_ordinal in Hr, Hr'.
  unfold weekday_of_ordinal, THURSDAY in *.
  Z.div_mod_to_equations. lia.
Qed.

Lemma week_of_functional (o : Z) (k k' : Z * Z) :
  ISO8601.week_of o k -> ISO8601.week_of o k' -> k = k'.
Proof.
  destruct k as [y w], k' as [y' w'].
  intros (t1 & t2 & Ht1 & Ht2 & Ho & Hw) (t1' & t2' & Ht1' & Ht2' & Ho' & Hw').
  cbn [fst snd] in *.
  assert (Hy : y = y').
  { destruct (Z.lt_trichotomy y y') as [Hlt | [Heq | Hgt]]; [| done |].
    - pose proof (first_thursday_mono (y + 1) y' t2 t1' ltac:(lia) Ht2 Ht1').
      lia.
    - pose proof (first_thursday_mono (y' + 1) y t2' t1 ltac:(lia) Ht2' Ht1).
      lia. }
  subst y'. rewrite (first_thursday_unique y t1' t1 Ht1' Ht1) in Hw'.
  congruence.
Qed.



End WeekKey.

(* --------------------------------------------------------------------- *)
(* Running and measuring programs that draw                              *)
(* --------------------------------------------------------------------- *)

Section RandFacts.
Context {G : Type} `{RandomSource G}.

Lemma run_bind {A B} (p : rand A) (f : A -> rand B) (g : G) :
  run (bind p f) g =
  match run p g with
  | (inr a, g') => run (f a) g'
  | (inl e, g') => (inl e, g')
  end.
Proof.
  revert g. induction p as [a | e | n k IH]; intros g; simpl; try done.
  destruct (randbelow n g) as [i g']. apply IH.
Qed.

Lemma run_choice_elem {A} (l : list A) (g g' : G) (x : A) :
  run (choice l) g = (inr x, g') -> x ∈ l.
Proof.
  destruct l as [| a l]; [discriminate |].
  cbn [choice run]. destruct (randbelow _ g) as [i g1].
  destruct ((a :: l) !! i) as [y |] eqn:E; simpl; [| discriminate].
  intros [= <- _]. eapply list_elem_of_lookup_2, E.
Qed.

Lemma run_choice_total {A} (l : list A) (g : G) :
  l <> [] -> exists x g', run (choice l) g = (inr x, g').
Proof.
  intros Hl. destruct l as [| a l]; [done |].
  cbn [choice run].
  pose proof (randbelow_lt (length (a :: l)) g ltac:(simpl; lia)) as Hlt.
  destruct (randbelow _ g) as [i g1]. simpl in Hlt.
  destruct (lookup_lt_is_Some_2 (a :: l) i Hlt) as [y Hy].
  rewrite Hy. by exists y, g1.
Qed.

Lemma run_getitem {V} (d : gmap (Z * Z) V) (k : Z * Z) (g g' : G) (v : V) :
  run (getitem d k) g = (inr v, g') -> d !! k = Some v /\ g' = g.
Proof.
  unfold getitem. destruct (d !! k); simpl; [| discriminate].
  by intros [= -> ->].
Qed.

End RandFacts.

Section ExpectFacts.
Local Open Scope Qc_scope.

Lemma Qc_sum_ext {X} (f g : X -> Qc) (l : list X) :
  (forall x, x ∈ l -> f x = g x) -> Qc_sum (map f l) = Qc_sum (map g l).
Proof.
  induction l as [| x l IH]; intros Hfg; simpl; [done |].
  rewrite Hfg by left. rewrite IH; [done |].
  intros y Hy. apply Hfg. by right.
Qed.

Lemma Qc_sum_scale {X} (c : Qc) (f : X -> Qc) (l : list X) :
  Qc_sum (map (fun x => c * f x) l) = c * Qc_sum (map f l).
Proof.
  induction l as [| x l IH]; simpl; [ring | rewrite IH; ring].
Qed.

Lemma Qc_sum_zero {X} (l : list X) :
  Qc_sum (map (fun _ => Q2Qc 0) l) = Q2Qc 0.
Proof. induction l as [| x l IH]; simpl; [done | rewrite IH; ring]. Qed.

Lemma expect_bind {A B} (p : rand A) (f : A -> rand B) (h : B -> Qc) :
  expect (bind p f) h = expect p (fun a => expect (f a) h).
Proof.
  induction p as [a | e | n k IH]; simpl; try done.
  f_equal. apply Qc_sum_ext. intros i _. apply IH.
Qed.

Lemma expect_scale {A} (p : rand A) (c : Qc) (h : A -> Qc) :
  expect p (fun a => c * h a) = c * expect p h.
Proof.
  induction p as [a | e | n k IH]; simpl; [done | ring |].
  rewrite (Qc_sum_ext _ (fun i => c * expect (k i) h)) by (intros; apply IH).
  rewrite Qc_sum_scale. unfold Qcdiv. ring.
Qed.

Lemma expect_ext {A} (p : rand A) (h h' : A -> Qc) :
  (forall a, h a = h' a) -> expect p h = expect p h'.
Proof.
  intros Hh. induction p as [a | e | n k IH]; simpl; [apply Hh | done |].
  f_equal. apply Qc_sum_ext. intros i _. apply IH.
Qed.

Lemma lookup_seq_sum {A} (l : list A) (h : A -> Qc) (s : nat) :
  Qc_sum (map (fun i => expect
                 (match l !! (i - s)%nat with
                  | Some x => Ret x
                  | None => Raise IndexError
                  end) h) (seq s (length l)))
  = Qc_sum (map h l).
Proof.
  revert s. induction l as [| a l IH]; intros s; simpl; [done |].
  replace (s - s)%nat with O by lia. simpl. f_equal.
  rewrite <- (IH (S s)). apply Qc_sum_ext.
  intros i Hi. apply elem_of_seq in Hi.
  replace (i - s)%nat with (S (i - S s)) by lia. done.
Qed.

Lemma expect_choice {A} (l : list A) (h : A -> Qc) :
  expect (choice l) h = Qc_sum (map h l) / Qc_of_nat (length l).
Proof.
  destruct l as [| a l]; [done |].
  cbn [choice expect]. f_equal.
  rewrite <- (lookup_seq_sum (a :: l) h 0).
  apply Qc_sum_ext. intros i _. by rewrite Nat.sub_0_r.
Qed.

End ExpectFacts.

Section UniformFacts.
Local Open Scope Qc_scope.

Lemma Qc_of_nat_S (n : nat) : Qc_of_nat (S n) = Q2Qc 1 + Qc_of_nat n.
Proof.
  apply Qc_is_canon. unfold Qc_of_nat.
  rewrite Nat2Z.inj_succ. unfold Z.succ.
  cbn [Qcplus this Q2Qc].
  rewrite !Qred_correct, inject_Z_plus. apply Qplus_comm.
Qed.

Lemma Qc_of_nat_pos (n : nat) : (0 < n)%nat -> Qc_of_nat n <> Q2Qc 0.
Proof.
  intros Hn E. apply (f_equal this) in E. unfold Qc_of_nat in E.
  cbn [this Q2Qc] in E.
  assert (Hq : (inject_Z (Z.of_nat n) == 0)%Q).
  { rewrite <- (Qred_correct (inject_Z (Z.of_nat n))), E. reflexivity. }
  unfold Qeq in Hq. simpl in Hq. lia.
Qed.

Lemma indicator_andb (a b : bool) :
  indicator (a && b) = indicator a * indicator b.
Proof. destruct a, b; unfold indicator; cbv [andb]; ring. Qed.

Lemma Qc_sum_indicator {A} (ev : A -> bool) (l : list A) :
  Qc_sum (map (fun x => indicator (ev x)) l) =
  Qc_of_nat (length (filter (fun x => Is_true (ev x)) l)).
Proof.
  induction l as [| a l IH]; simpl; [done |].
  rewrite IH, filter_cons. destruct (ev a) eqn:E; unfold indicator.
  - rewrite decide_True by exact I. simpl length. by rewrite Qc_of_nat_S.
  - rewrite decide_False by (intros []). ring.
Qed.

Lemma expect_choice_indicator {A} (l : list A) (ev : A -> bool) :
  expect (choice l) (fun x => indicator (ev x)) = uniform_on l ev.
Proof. by rewrite expect_choice, Qc_sum_indicator. Qed.

Lemma uniform_on_all {A} (l : list A) :
  l <> [] -> uniform_on l (fun _ => true) = Q2Qc 1.
Proof.
  intros Hl. unfold uniform_on.
  assert (Hf : filter (fun _ : A => Is_true true) l = l).
  { clear Hl. induction l as [| a l IH]; [done |].
    rewrite filter_cons, decide_True by exact I. by rewrite IH. }
  rewrite Hf. field. apply Qc_of_nat_pos.
  destruct l; [done | simpl; lia].
Qed.

Lemma expect_zero {A} (p : rand A) :
  expect p (fun _ => Q2Qc 0) = Q2Qc 0.
Proof.
  induction p as [a | e | n k IH]; simpl; try done.
  rewrite (Qc_sum_ext _ (fun _ => Q2Qc 0)) by (intros; apply IH).
  rewrite Qc_sum_zero. unfold Qcdiv. ring.
Qed.

(* A sum that selects one key of a duplicate-free list. *)
Lemma Qc_sum_select {K} `{EqDecision K} (l : list K) (w : K) (c : Qc) :
  NoDup l -> w ∈ l ->
  Qc_sum (map (fun k => if decide (k = w) then c else Q2Qc 0) l) = c.
Proof.
  intros Hnd Hin. induction Hnd as [| k l Hk Hnd IH]; [by inversion Hin |].
  simpl. destruct (decide (k = w)) as [-> | Hne].
  - rewrite (Qc_sum_ext _ (fun _ => Q2Qc 0)).
    + rewrite Qc_sum_zero. ring.
    + intros k' Hk'. rewrite decide_False; [done |]. by intros ->.
  - rewrite IH; [ring |]. by apply elem_of_cons in Hin as [-> |].
Qed.

End UniformFacts.

Section SamplerFacts.
Context {T P : Type}.
Implicit Types (tracks : gmap (Z * Z) (list T)).
Implicit Types (photos : gmap (Z * Z) (list P)).

Lemma common_weeks_elem tracks photos (w : Z * Z) :
  w ∈ common_weeks tracks photos <->
  is_Some (tracks !! w) /\ is_Some (photos !! w).
Proof.
  unfold common_weeks.
  rewrite elem_of_elements, elem_of_intersection, !elem_of_dom. done.
Qed.

Lemma common_weeks_NoDup tracks photos : NoDup (common_weeks tracks photos).
Proof. apply NoDup_elements. Qed.

Lemma sampler_unfold tracks photos :
  get_random_photo_and_song tracks photos =
  bind (choice (common_weeks tracks photos)) (draw_in_week tracks photos).
Proof. reflexivity. Qed.

Local Open Scope Qc_scope.

Lemma expect_draw_in_week tracks photos (w week : Z * Z)
  (lt : list T) (lp : list P) (et : T -> bool) (ep : P -> bool) :
  tracks !! w = Some lt -> photos !! w = Some lp ->
  expect (draw_in_week tracks photos week)
    (fun r => indicator (bool_decide (r.2 = w) && et r.1.1 && ep r.1.2)) =
  if decide (week = w) then uniform_on lt et * uniform_on lp ep
  else Q2Qc 0.
Proof.
  intros Ht Hp. unfold draw_in_week.
  destruct (decide (week = w)) as [-> | Hne].
  - unfold getitem. rewrite Ht, Hp. cbn [bind].
    rewrite expect_bind.
    rewrite (expect_ext _ _ (fun t => indicator (et t) * uniform_on lp ep)).
    + rewrite (expect_ext _ _
        (fun t => uniform_on lp ep * indicator (et t)))
        by (intros; ring).
      rewrite expect_scale, expect_choice_indicator. ring.
    + intros t. rewrite expect_bind. cbn [expect fst snd].
      rewrite (expect_ext _ _
        (fun p => indicator (et t) * indicator (ep p))).
      * by rewrite expect_scale, expect_choice_indicator.
      * intros p. rewrite bool_decide_true by done.
        by rewrite andb_true_l, indicator_andb.
  - rewrite !expect_bind.
    rewrite (expect_ext _ _ (fun _ => Q2Qc 0)); [apply expect_zero |].
    intros l1. rewrite expect_bind.
    rewrite (expect_ext _ _ (fun _ => Q2Qc 0)); [apply expect_zero |].
    intros t. rewrite expect_bind.
    rewrite (expect_ext _ _ (fun _ => Q2Qc 0)); [apply expect_zero |].
    intros l2. rewrite expect_bind.
    rewrite (expect_ext _ _ (fun _ => Q2Qc 0)); [apply expect_zero |].
    intros p. cbn [expect fst snd].
    by rewrite bool_decide_false.
Qed.

Lemma prob_week_and_items tracks photos (w : Z * Z)
  (lt : list T) (lp : list P) (et : T -> bool) (ep : P -> bool) :
  tracks !! w = Some lt -> photos !! w = Some lp ->
  prob (get_random_photo_and_song tracks photos)
    (fun r => bool_decide (r.2 = w) && et r.1.1 && ep r.1.2) =
  Q2Qc 1 / Qc_of_nat (size (dom tracks ∩ dom photos))
  * (uniform_on lt et * uniform_on lp ep).
Proof.
  intros Ht Hp. unfold prob.
  rewrite sampler_unfold, expect_bind, expect_choice.
  rewrite (Qc_sum_ext _
    (fun week => if decide (week = w)
                 then uniform_on lt et * uniform_on lp ep else Q2Qc 0))
    by (intros; by apply expect_draw_in_week).
  rewrite Qc_sum_select.
  - unfold common_weeks, size, set_size. simpl. unfold Qcdiv. ring.
  - apply common_weeks_NoDup.
  - apply common_weeks_elem. by rewrite Ht, Hp.
Qed.

End SamplerFacts.

(* --------------------------------------------------------------------- *)
(* The sampler                                                           *)
(* --------------------------------------------------------------------- *)

(** C2: when the week keys of the history buckets and of the photo buckets
    are disjoint, the sampler fails: random.choice is handed the empty list
    of common weeks and raises (IndexError is the form the no-overlap
    condition takes in the program), no sample is returned, no draw is
    made, and next_item leaves the machine, with both bucket collections,
    exactly as it was. *)
Theorem next_item_no_overlap {T P G : Type} `{RandomSource G}
  (m : machine T P G) :
  dom (tracks m) ## dom (photos m) ->
  run (get_random_photo_and_song (tracks m) (photos m)) (generator m)
    = (inl IndexError, generator m) /\
  next_item m = (Some IndexError, m) /\
  tracks (next_item m).2 = tracks m /\
  photos (next_item m).2 = photos m.
Proof.
  intros Hdisj. apply disjoint_intersection_L in Hdisj.
  assert (Hrun :
    run (get_random_photo_and_song (tracks m) (photos m)) (generator m)
    = (inl IndexError, generator m)).
  { unfold get_random_photo_and_song, common_weeks.
    rewrite Hdisj, elements_empty. reflexivity. }
  assert (Hnext : next_item m = (Some IndexError, m)).
  { unfold next_item. rewrite Hrun. by destruct m. }
  rewrite Hnext. done.
Qed.

Lemma next_item_no_overlap_witness :
  let history : gmap (Z * Z) (list nat) := {[ (2024, 10) := [1%nat] ]} in
  let archive : gmap (Z * Z) (list nat) := {[ (2024, 11) := [2%nat] ]} in
  let m := mk_machine history archive None None None [4%nat; 2%nat] in
  dom (tracks m) ## dom (photos m) /\
  next_item (src:=Replay.source) m = (Some IndexError, m).
Proof.
  intros history archive m.
  assert (Hd : dom (tracks m) ## dom (photos m)).
  { apply disjoint_intersection_L. by vm_compute. }
  split; [exact Hd |].
  exact (proj1 (proj2 (next_item_no_overlap (H:=Replay.source) m Hd))).
Defined.

(** C3: with uniform, independent draws, every week common to both bucket
    collections is returned with probability 1/k, k being the number of
    common weeks, whatever the sizes of the buckets; and jointly with the
    week, the track and the photo fall in any sets of items with the
    uniform measures of those sets over the positions of the week's two
    buckets, so that within the chosen week each position of either bucket
    is equally likely and the two draws are independent. *)
Theorem sampling_is_uniform {T P : Type} (tracks : gmap (Z * Z) (list T))
  (photos : gmap (Z * Z) (list P)) (w : Z * Z) (lt : list T) (lp : list P) :
  tracks !! w = Some lt -> photos !! w = Some lp ->
  lt <> [] -> lp <> [] ->
  prob (get_random_photo_and_song tracks photos)
    (fun r => bool_decide (r.2 = w))
  = (Q2Qc 1 / Qc_of_nat (size (dom tracks ∩ dom photos)))%Qc /\
  forall (et : T -> bool) (ep : P -> bool),
    prob (get_random_photo_and_song tracks photos)
      (fun r => bool_decide (r.2 = w) && et r.1.1 && ep r.1.2)
    = (Q2Qc 1 / Qc_of_nat (size (dom tracks ∩ dom photos))
       * (uniform_on lt et * uniform_on lp ep))%Qc.
Proof.
  intros Ht Hp Hlt Hlp. split.
  - pose proof (prob_week_and_items tracks photos w lt lp
                  (fun _ => true) (fun _ => true) Ht Hp) as Hall.
    rewrite !uniform_on_all in Hall by done.
    unfold prob in *.
    rewrite (expect_ext _ _
      (fun r => indicator (bool_decide (r.2 = w) && true && true))).
    + rewrite Hall. ring.
    + intros r. by rewrite !andb_true_r.
  - intros et ep. by apply prob_week_and_items.
Qed.

Lemma sampling_is_uniform_witness :
  let tracks : gmap (Z * Z) (list nat) :=
    {[ (2024, 10) := [1%nat; 2%nat; 3%nat]; (2024, 11) := [4%nat] ]} in
  let photos : gmap (Z * Z) (list nat) :=
    {[ (2024, 10) := [7%nat]; (2024, 11) := [8%nat; 9%nat] ]} in
  (tracks !! (2024, 10) = Some [1%nat; 2%nat; 3%nat] /\
   photos !! (2024, 10) = Some [7%nat]) /\
  prob (get_random_photo_and_song tracks photos)
    (fun r => bool_decide (r.2 = (2024, 10)))
  = (Q2Qc 1 / Qc_of_nat (size (dom tracks ∩ dom photos)))%Qc.
Proof.
  intros tracks photos.
  assert (Ht : tracks !! (2024, 10) = Some [1%nat; 2%nat; 3%nat])
    by (vm_compute; reflexivity).
  assert (Hp : photos !! (2024, 10) = Some [7%nat])
    by (vm_compute; reflexivity).
  split; [by split |].
  exact (proj1 (sampling_is_uniform tracks photos (2024, 10) _ _ Ht Hp
                  ltac:(discriminate) ltac:(discriminate))).
Defined.

(** C10: when the two bucket collections share a week, every triple
    (track, photo, week) that the sampler returns is sound: week is a key
    of both collections, track is in the history bucket of that week and
    photo is in the photo bucket of that week; and when no bucket is empty
    the sampler does return a triple, whatever the generator draws. *)
Theorem sample_sound {T P G : Type} `{RandomSource G}
  (tracks : gmap (Z * Z) (list T)) (photos : gmap (Z * Z) (list P)) :
  dom tracks ∩ dom photos ≠ ∅ ->
  (forall (g g' : G) track photo week,
     run (get_random_photo_and_song tracks photos) g
       = (inr (track, photo, week), g') ->
     week ∈ dom tracks /\ week ∈ dom photos /\
     (exists l, tracks !! week = Some l /\ track ∈ l) /\
     (exists l, photos !! week = Some l /\ photo ∈ l)) /\
  (nonempty_buckets tracks -> nonempty_buckets photos ->
   forall g : G, exists r g',
     run (get_random_photo_and_song tracks photos) g = (inr r, g')).
Proof.
  intros Hne. split.
  - intros g g' track photo week.
    rewrite sampler_unfold, run_bind.
    destruct (run (choice _) g) as [[e | wk] g1] eqn:Ew; [discriminate |].
    apply run_choice_elem, common_weeks_elem in Ew as [Hwt Hwp].
    unfold draw_in_week. rewrite run_bind.
    destruct (run (getitem tracks wk) g1) as [[e | lt] g2] eqn:E1;
      [discriminate |].
    apply run_getitem in E1 as [E1 ->].
    rewrite run_bind.
    destruct (run (choice lt) g1) as [[e | t] g3] eqn:E2; [discriminate |].
    apply run_choice_elem in E2.
    rewrite run_bind.
    destruct (run (getitem photos wk) g3) as [[e | lp] g4] eqn:E3;
      [discriminate |].
    apply run_getitem in E3 as [E3 ->].
    rewrite run_bind.
    destruct (run (choice lp) g3) as [[e | p] g5] eqn:E4; [discriminate |].
    apply run_choice_elem in E4.
    cbn [run]. intros [= <- <- <- <-].
    rewrite !elem_of_dom. eauto 10.
  - intros Hnt Hnp g.
    assert (Hcw : common_weeks tracks photos <> []).
    { unfold common_weeks. intros E. apply Hne.
      by apply elements_empty_inv, leibniz_equiv in E. }
    destruct (run_choice_total _ g Hcw) as (wk & g1 & Ew).
    pose proof Ew as Hin.
    apply run_choice_elem, common_weeks_elem in Hin as [[lt Ht] [lp Hp]].
    destruct (run_choice_total lt g1 (Hnt _ _ Ht)) as (t & g2 & Et).
    destruct (run_choice_total lp g2 (Hnp _ _ Hp)) as (p & g3 & Ep).
    exists (t, p, wk), g3.
    rewrite sampler_unfold, run_bind, Ew. unfold draw_in_week, getitem.
    rewrite Ht, Hp. cbn [bind].
    rewrite run_bind, Et. cbn [bind]. by rewrite run_bind, Ep.
Qed.

Lemma sample_sound_witness :
  let tracks : gmap (Z * Z) (list nat) := {[ (2024, 10) := [1%nat] ]} in
  let photos : gmap (Z * Z) (list nat) :=
    {[ (2024, 10) := [7%nat]; (2024, 11) := [8%nat] ]} in
  dom tracks ∩ dom photos ≠ ∅ /\
  run (src:=Replay.source) (get_random_photo_and_song tracks photos)
    [5%nat; 3%nat; 4%nat]
    = (inr (1%nat, 7%nat, (2024, 10)), []) /\
  (2024, 10) ∈ dom tracks /\ (2024, 10) ∈ dom photos.
Proof.
  intros tracks photos.
  assert (Hne : dom tracks ∩ dom photos ≠ ∅).
  { intros E. apply (f_equal elements) in E. by vm_compute in E. }
  assert (Hrun :
    run (src:=Replay.source) (get_random_photo_and_song tracks photos)
      [5%nat; 3%nat; 4%nat]
    = (inr (1%nat, 7%nat, (2024, 10)), [])) by (vm_compute; reflexivity).
  split; [exact Hne |]. split; [exact Hrun |].
  destruct (proj1 (sample_sound (H:=Replay.source) tracks photos Hne)
              _ _ _ _ _ Hrun) as (H1 & H2 & _).
  by split.
Defined.

(* --------------------------------------------------------------------- *)
(* Loops                                                                 *)
(* --------------------------------------------------------------------- *)

Section Loops.
Context {X S : Type}.

Lemma for_each_preserves (I : S -> Prop) (body : X -> S -> outcome S)
  (xs : list X) (s : S) :
  (forall x s, I s -> I (outcome_state (body x s))) ->
  I s -> I (outcome_state (for_each body xs s)).
Proof.
  intros Hbody. revert s. induction xs as [| x xs IH]; intros s Hs; [done |].
  simpl. specialize (Hbody x s Hs).
  destruct (body x s) as [s' | e s']; simpl in *; [by apply IH | done].
Qed.

Lemma for_each_rel (R : S -> S -> Prop) (body : X -> S -> outcome S)
  (xs : list X) (s s' : S) :
  (forall x s s', R s s' -> outcome_rel R (body x s) (body x s')) ->
  R s s' -> outcome_rel R (for_each body xs s) (for_each body xs s').
Proof.
  intros Hbody. revert s s'.
  induction xs as [| x xs IH]; intros s s' Hs; [done |].
  simpl. specialize (Hbody x s s' Hs).
  destruct (body x s) as [s1 | e1 s1], (body x s') as [s1' | e1' s1'];
    simpl in *; try done.
  by apply IH.
Qed.

End Loops.

(* --------------------------------------------------------------------- *)
(* load_spotify_history: what a run depends on and what it keeps         *)
(* --------------------------------------------------------------------- *)

Lemma nonempty_buckets_empty {A} : nonempty_buckets (A:=A) ∅.
Proof. intros k l Hk. by rewrite lookup_empty in Hk. Qed.

Lemma nonempty_buckets_setdefault_append {A} (k : Z * Z) (x : A)
  (d : gmap (Z * Z) (list A)) :
  nonempty_buckets d -> nonempty_buckets (setdefault_append k x d).
Proof.
  intros Hd k' l. unfold setdefault_append.
  destruct (decide (k = k')) as [<- | Hne].
  - rewrite lookup_insert_eq. intros [= <-].
    by destruct (default [] (d !! k)).
  - rewrite lookup_insert_ne by done. apply Hd.
Qed.

Section HistoryFacts.
Context {lib : DatetimeLib}.

Lemma agree_refl st : agree st st.
Proof. done. Qed.

Lemma agree_print line st st' : agree st st' -> agree (print line st) st'.
Proof. done. Qed.

Lemma parse_ts_agree ts st st' :
  agree st st' -> agree (parse_ts ts st) (parse_ts ts st').
Proof.
  intros [Ht Hd]. unfold parse_ts.
  destruct (strptime ts _); [done |].
  destruct (fromisoformat _); done.
Qed.

Lemma bucket_entry_agree kvs st st' :
  agree st st' ->
  outcome_rel agree (bucket_entry kvs st) (bucket_entry kvs st').
Proof.
  intros Hag. pose proof Hag as [Ht Hd]. unfold bucket_entry.
  rewrite <- Hd. destruct (st_dt st) as [d |] eqn:Ed; [| done].
  destruct (is_none _ || is_none _); simpl; unfold agree; simpl;
    by rewrite Ht, Ed, Hd.
Qed.

Lemma process_entry_agree entry st st' :
  agree st st' ->
  outcome_rel agree (process_entry entry st) (process_entry entry st').
Proof.
  intros Hag. unfold process_entry.
  destruct entry as [| b | z | s | l | kvs]; simpl; try done.
  - by destruct (str_has s "ts").
  - by destruct (list_has l "ts").
  - destruct (dict_lookup kvs "ts") as [[| b | z | ts | l | kvs'] |];
      simpl; try done.
    by apply bucket_entry_agree, parse_ts_agree.
Qed.

Lemma process_file_agree folder f st st' :
  agree st st' ->
  outcome_rel agree (process_file folder f st) (process_file folder f st').
Proof.
  intros Hag. unfold process_file.
  destruct (f_json f) as [data | | e]; [| done | by split].
  set (data' := match data with
                | JDict kvs => unwrap_list kvs possible_list_keys
                | _ => data
                end).
  destruct data'; try done.
  apply for_each_rel; [| done]. intros. by apply process_entry_agree.
Qed.

(* What a run returns or raises does not depend on what was printed
   before it. *)
Lemma load_spotify_history_stdout folder out out' :
  (load_spotify_history folder out).1 = (load_spotify_history folder out').1.
Proof.
  unfold load_spotify_history.
  pose proof (for_each_rel agree (process_file (d_path folder))
                (glob_streams folder)
                (mk_state ∅ None out) (mk_state ∅ None out')
                (fun f s s' => process_file_agree _ f s s')
                (agree_refl _)) as Hrel.
  destruct (for_each _ _ (mk_state ∅ None out)) as [s | e s],
    (for_each _ _ (mk_state ∅ None out')) as [s' | e' s'];
    simpl in *; try done.
  - destruct Hrel as [-> _]. done.
  - destruct Hrel as [-> _]. done.
Qed.

Lemma parse_ts_buckets ts st :
  st_tracks_by_week (parse_ts ts st) = st_tracks_by_week st.
Proof.
  unfold parse_ts. destruct (strptime ts _); [done |].
  by destruct (fromisoformat _).
Qed.

Lemma bucket_entry_buckets_ok kvs st :
  buckets_ok st -> buckets_ok (outcome_state (bucket_entry kvs st)).
Proof.
  intros Hok. unfold bucket_entry.
  destruct (st_dt st) as [d |]; [| done].
  destruct (is_none _ || is_none _); simpl;
    by apply nonempty_buckets_setdefault_append.
Qed.

Lemma process_entry_buckets_ok entry st :
  buckets_ok st -> buckets_ok (outcome_state (process_entry entry st)).
Proof.
  intros Hok. unfold process_entry.
  destruct entry as [| b | z | s | l | kvs]; simpl; try done.
  - by destruct (str_has s "ts").
  - by destruct (list_has l "ts").
  - destruct (dict_lookup kvs "ts") as [[| b | z | ts | l | kvs'] |];
      simpl; try done.
    apply bucket_entry_buckets_ok. unfold buckets_ok.
    by rewrite parse_ts_buckets.
Qed.

Lemma process_file_buckets_ok folder f st :
  buckets_ok st -> buckets_ok (outcome_state (process_file folder f st)).
Proof.
  intros Hok. unfold process_file.
  destruct (f_json f) as [data | | e]; [| done | done].
  set (data' := match data with
                | JDict kvs => unwrap_list kvs possible_list_keys
                | _ => data
                end).
  destruct data'; try done.
  apply (for_each_preserves buckets_ok); [| done].
  intros. by apply process_entry_buckets_ok.
Qed.

End HistoryFacts.

Section HistoryRuns.
Context {lib : DatetimeLib}.

Ltac same_stdout := exists []; simpl; by rewrite app_nil_r.

Lemma stdout_extends_refl st : stdout_extends st st.
Proof. exists []. by rewrite app_nil_r. Qed.

Lemma stdout_extends_trans st1 st2 st3 :
  stdout_extends st1 st2 -> stdout_extends st2 st3 -> stdout_extends st1 st3.
Proof.
  intros [n1 H1] [n2 H2]. exists (n1 ++ n2). by rewrite H2, H1, app_assoc.
Qed.

Lemma parse_ts_stdout ts st : stdout_extends st (parse_ts ts st).
Proof.
  unfold parse_ts. destruct (strptime ts _); [same_stdout |].
  destruct (fromisoformat _) as [e | d]; [by eexists | same_stdout].
Qed.

Lemma bucket_entry_stdout kvs st :
  stdout_extends st (outcome_state (bucket_entry kvs st)).
Proof.
  unfold bucket_entry. destruct (st_dt st); [| same_stdout].
  destruct (is_none _ || is_none _); same_stdout.
Qed.

Lemma process_entry_stdout entry st :
  stdout_extends st (outcome_state (process_entry entry st)).
Proof.
  unfold process_entry.
  destruct entry as [| b | z | s | l | kvs]; simpl;
    try apply stdout_extends_refl.
  - destruct (str_has s "ts"); apply stdout_extends_refl.
  - destruct (list_has l "ts"); apply stdout_extends_refl.
  - destruct (dict_lookup kvs "ts") as [[| b | z | ts | l | kvs'] |];
      simpl; try apply stdout_extends_refl.
    eapply stdout_extends_trans;
      [apply parse_ts_stdout | apply bucket_entry_stdout].
Qed.

Lemma for_each_entries_stdout l st :
  stdout_extends st (outcome_state (for_each process_entry l st)).
Proof.
  apply (for_each_preserves (stdout_extends st));
    [| apply stdout_extends_refl].
  intros x s Hs. eapply stdout_extends_trans;
    [exact Hs | apply process_entry_stdout].
Qed.

Lemma process_file_stdout folder f st :
  stdout_extends st (outcome_state (process_file folder f st)).
Proof.
  unfold process_file.
  destruct (f_json f) as [data | | e];
    [| by eexists | apply stdout_extends_refl].
  set (data' := match data with
                | JDict kvs => unwrap_list kvs possible_list_keys
                | _ => data
                end).
  destruct data'; try (by eexists). apply for_each_entries_stdout.
Qed.

Lemma for_each_files_stdout folder fs st :
  stdout_extends st (outcome_state (for_each (process_file folder) fs st)).
Proof.
  apply (for_each_preserves (stdout_extends st));
    [| apply stdout_extends_refl].
  intros x s Hs. eapply stdout_extends_trans;
    [exact Hs | apply process_file_stdout].
Qed.

Lemma process_entry_well_formed r st :
  well_formed_record r -> exists st1, process_entry r st = Done st1.
Proof.
  intros (kvs & -> & Hts). unfold process_entry.
  destruct (dict_lookup kvs "ts") as [[| b | z | ts | l | kvs'] |];
    try done; [| by eexists].
  unfold bucket_entry.
  assert (Hdt : is_Some (st_dt (parse_ts ts st))).
  { unfold parse_ts. destruct Hts as [[d Hd] | [d Hd]].
    - by rewrite Hd.
    - destruct (strptime ts _); [done |]. by rewrite Hd. }
  destruct Hdt as [d ->].
  destruct (is_none _ || is_none _); by eexists.
Qed.

Lemma for_each_entries_well_formed l st :
  Forall well_formed_record l ->
  exists st1, for_each process_entry l st = Done st1.
Proof.
  intros Hl. revert st. induction Hl as [| r l Hr Hl IH]; intros st.
  - by eexists.
  - simpl. destruct (process_entry_well_formed r st Hr) as [st1 ->].
    apply IH.
Qed.

Lemma process_file_records folder f data l st :
  f_json f = Loaded data -> records_of data = Some l ->
  process_file folder f st = for_each process_entry l st.
Proof.
  intros Hj Hr. unfold process_file. rewrite Hj.
  destruct data as [| b | z | s | l' | kvs]; unfold records_of in Hr;
    try done.
  - congruence.
  - destruct (unwrap_list kvs possible_list_keys); try done.
    congruence.
Qed.

Lemma process_file_malformed folder f st :
  malformed f = true ->
  process_file folder f st = Done (print (diagnostic folder f) st).
Proof.
  unfold malformed, process_file, diagnostic.
  destruct (f_json f) as [data | | e]; [| done | done].
  destruct data as [| b | z | s | l | kvs]; unfold records_of; try done.
  destruct (unwrap_list kvs possible_list_keys); done.
Qed.

Lemma well_formed_not_malformed f : well_formed f -> malformed f = false.
Proof.
  intros (data & l & Hj & Hr & _). unfold malformed. by rewrite Hj, Hr.
Qed.

Lemma ingest_skips_malformed folder fs st st' :
  Forall (fun f => malformed f = true \/ well_formed f) fs ->
  agree st st' ->
  exists s1 s1' new,
    for_each (process_file folder) fs st = Done s1 /\
    for_each (process_file folder)
      (filter (fun f => Is_true (negb (malformed f))) fs) st' = Done s1' /\
    agree s1 s1' /\
    st_stdout s1 = st_stdout st ++ new /\
    forall f, f ∈ fs -> malformed f = true -> diagnostic folder f ∈ new.
Proof.
  intros Hfs. revert st st'.
  induction Hfs as [| f fs Hf Hfs IH]; intros st st' Hag.
  - exists st, st', []. rewrite app_nil_r.
    do 4 (split; [done |]). intros f Hin. by inversion Hin.
  - rewrite filter_cons. destruct (malformed f) eqn:Em.
    + rewrite decide_False by (intros []).
      destruct (IH (print (diagnostic folder f) st) st'
                  (agree_print _ _ _ Hag))
        as (s1 & s1' & new & E1 & E2 & Hag1 & Hout & Hdiag).
      exists s1, s1', (diagnostic folder f :: new).
      cbn [for_each]. rewrite process_file_malformed by done.
      do 3 (split; [done |]). split.
      * rewrite Hout. simpl. by rewrite <- app_assoc.
      * intros f' Hin Hm. apply elem_of_cons in Hin as [-> | Hin];
          [left | right; by apply Hdiag].
    + rewrite decide_True by exact I.
      destruct Hf as [Hf | Hf]; [done |].
      destruct Hf as (data & l & Hj & Hr & Hl).
      cbn [for_each].
      pose proof (process_file_agree folder f st st' Hag) as Hrel.
      rewrite !(process_file_records folder f data l) in * by done.
      destruct (for_each_entries_well_formed l st Hl) as [st1 E1].
      destruct (for_each_entries_well_formed l st' Hl) as [st1' E1'].
      pose proof (for_each_entries_stdout l st) as [n1 Hn1].
      rewrite E1 in Hrel, Hn1. rewrite E1' in Hrel. simpl in Hrel, Hn1.
      rewrite E1, E1'.
      destruct (IH st1 st1' Hrel)
        as (s1 & s1' & new & E2 & E2' & Hag1 & Hout & Hdiag).
      exists s1, s1', (n1 ++ new). do 3 (split; [done |]). split.
      * by rewrite Hout, Hn1, app_assoc.
      * intros f' Hin Hm. apply elem_of_cons in Hin as [-> | Hin];
          [congruence |].
        apply elem_of_app. right. by apply Hdiag.
Qed.

(* Removing the malformed files never changes how a run ends: the same
   buckets are returned, or the same exception is raised. *)
Lemma for_each_files_valid_only folder fs st st' :
  agree st st' ->
  outcome_rel agree
    (for_each (process_file folder) fs st)
    (for_each (process_file folder)
       (filter (fun f => Is_true (negb (malformed f))) fs) st').
Proof.
  revert st st'. induction fs as [| f fs IH]; intros st st' Hag; [done |].
  rewrite filter_cons. destruct (malformed f) eqn:Em.
  - rewrite decide_False by (intros []). cbn [for_each].
    rewrite process_file_malformed by done. by apply IH, agree_print.
  - rewrite decide_True by exact I. cbn [for_each].
    pose proof (process_file_agree folder f st st' Hag) as Hrel.
    destruct (process_file folder f st) as [s1 | e1 s1],
      (process_file folder f st') as [s1' | e1' s1']; simpl in Hrel;
      try done.
    by apply IH.
Qed.

(* A record whose 'ts' is a string that both parsers refuse is not
   skipped: after the diagnostic it goes on to the bucketing, which reads
   the dt of an earlier record or finds dt unbound. *)
Lemma process_entry_unresolved kvs ts msg st :
  dict_lookup kvs "ts" = Some (JStr ts) ->
  strptime ts "%Y-%m-%dT%H:%M:%SZ" = None ->
  fromisoformat (str_replace ts "Z" "+00:00") = inl msg ->
  process_entry (JDict kvs) st =
  bucket_entry kvs (print ("Failed to parse timestamp: " +:+ msg) st).
Proof.
  intros Hts Hs Hf. unfold process_entry, parse_ts.
  by rewrite Hts, Hs, Hf.
Qed.

Lemma glob_streams_valid_only folder :
  glob_streams (valid_only folder) =
  filter (fun f => Is_true (negb (malformed f))) (glob_streams folder).
Proof.
  unfold glob_streams, valid_only. simpl.
  rewrite !list_filter_filter. apply list_filter_iff. intros f. tauto.
Qed.

Lemma load_spotify_history_valid_only folder out :
  (load_spotify_history folder out).1
  = (load_spotify_history (valid_only folder) out).1.
Proof.
  unfold load_spotify_history. rewrite glob_streams_valid_only.
  pose proof (for_each_files_valid_only (d_path folder)
                (glob_streams folder)
                (mk_state ∅ None out) (mk_state ∅ None out)
                (agree_refl _)) as Hrel.
  simpl d_path.
  destruct (for_each _ (glob_streams folder) _) as [s | e s],
    (for_each _ (filter _ _) _) as [s' | e' s'];
    simpl in *; try done.
  - destruct Hrel as [-> _]. done.
  - destruct Hrel as [-> _]. done.
Qed.

End HistoryRuns.

(* --------------------------------------------------------------------- *)
(* load_photos: the contents of every bucket                             *)
(* --------------------------------------------------------------------- *)


Lemma lookup_default_nonempty {A} (d : gmap (Z * Z) (list A)) k (l : list A) :
  nonempty_buckets d ->
  d !! k = Some l <-> (default [] (d !! k) = l /\ l <> []).
Proof.
  intros Hd. split.
  - intros Hk. rewrite Hk. split; [done | by eapply Hd].
  - intros [Hk Hl]. destruct (d !! k) as [l' |]; simpl in Hk; congruence.
Qed.


Section PhotoFacts.
Context {lib : DatetimeLib}.

Lemma get_photo_date_resolved f : get_photo_date f = resolved_timestamp f.
Proof.
  unfold get_photo_date, exif_date, resolved_timestamp.
  destruct (p_exif f) as [| [datestr |]]; try done.
Qed.

Lemma add_photo_done folder f m m' k :
  add_photo folder f m = Done m' ->
  default [] (m' !! k) =
  default [] (m !! k) ++
  ((fun f => path_str folder (p_name f)) <$> filter (in_week k) [f]).
Proof.
  unfold add_photo. rewrite filter_cons, filter_nil.
  destruct (decide (in_week k f)) as [[Hj Hw] | Hn]; unfold in_week in *.
  - destruct (is_jpeg f); [| done]. simpl.
    destruct (get_photo_date f) as [e | d]; [done |].
    intros [= <-]. unfold setdefault_append.
    by rewrite Hw, lookup_insert_eq.
  - destruct (is_jpeg f); simpl; [| intros [= <-]; by rewrite app_nil_r].
    destruct (get_photo_date f) as [e | d]; [discriminate |].
    intros [= <-]. unfold setdefault_append.
    rewrite lookup_insert_ne; [by rewrite app_nil_r |].
    intros E. by apply Hn.
Qed.

Lemma add_photo_raised folder f m m' e :
  add_photo folder f m = Raised e m' ->
  Is_true (is_jpeg f) /\ get_photo_date f = inl e.
Proof.
  unfold add_photo. destruct (is_jpeg f); simpl; [| discriminate].
  destruct (get_photo_date f) as [e' | d]; [| discriminate].
  by intros [= -> _].
Qed.

Lemma for_each_add_photo_done folder fs m0 m k :
  for_each (add_photo folder) fs m0 = Done m ->
  default [] (m !! k) =
  default [] (m0 !! k) ++
  ((fun f => path_str folder (p_name f)) <$> filter (in_week k) fs).
Proof.
  revert m0. induction fs as [| f fs IH]; intros m0.
  - intros [= <-]. simpl. by rewrite app_nil_r.
  - cbn [for_each].
    destruct (add_photo folder f m0) as [m1 | e m1] eqn:E; [| discriminate].
    intros Hrest. rewrite (IH _ Hrest), (add_photo_done _ _ _ _ k E).
    rewrite <- app_assoc, <- fmap_app. do 2 f_equal.
    rewrite !filter_cons, filter_nil. by destruct (decide (in_week k f)).
Qed.

(* The loop returns exactly when every photo it keeps can be dated. *)
Lemma for_each_add_photo_returns folder fs m0 :
  (forall f, f ∈ fs -> Is_true (is_jpeg f) ->
             exists d, get_photo_date f = inr d) <->
  exists m, for_each (add_photo folder) fs m0 = Done m.
Proof.
  revert m0. induction fs as [| f fs IH]; intros m0.
  - split; [by eexists | intros _ f Hf; by inversion Hf].
  - cbn [for_each]. split.
    + intros Hall.
      assert (Hrest : forall g, g ∈ fs -> Is_true (is_jpeg g) ->
                                exists d, get_photo_date g = inr d).
      { intros g Hg. apply Hall. by right. }
      unfold add_photo. destruct (is_jpeg f) eqn:Ej; simpl.
      * destruct (Hall f ltac:(by left) ltac:(by rewrite Ej)) as [d ->].
        by apply IH.
      * by apply IH.
    + intros [m Hm] g Hg Hj.
      destruct (add_photo folder f m0) as [m1 | e m1] eqn:E; [| discriminate].
      apply elem_of_cons in Hg as [-> | Hg].
      * unfold add_photo in E. destruct (is_jpeg f); [| done]. simpl in E.
        destruct (get_photo_date f) as [e | d]; [discriminate | by exists d].
      * by apply (proj2 (IH m1) (ex_intro _ m Hm)).
Qed.

Lemma add_photo_nonempty folder f m :
  nonempty_buckets m ->
  nonempty_buckets (outcome_state (add_photo folder f m)).
Proof.
  intros Hm. unfold add_photo. destruct (negb (is_jpeg f)); [done |].
  destruct (get_photo_date f); [done |].
  by apply nonempty_buckets_setdefault_append.
Qed.

Lemma load_photos_nonempty folder buckets :
  load_photos folder = inr buckets -> nonempty_buckets buckets.
Proof.
  unfold load_photos.
  pose proof (for_each_preserves nonempty_buckets
                (add_photo (d_path folder)) (glob_any folder) ∅
                (fun f m => add_photo_nonempty _ f m)
                nonempty_buckets_empty) as Hok.
  destruct (for_each _ _ _) as [m | e m]; [| discriminate].
  by intros [= <-].
Qed.

Lemma load_photos_bucket folder buckets k :
  load_photos folder = inr buckets ->
  default [] (buckets !! k) =
  (fun f => path_str (d_path folder) (p_name f))
    <$> filter (in_week k) (glob_any folder).
Proof.
  unfold load_photos.
  destruct (for_each _ _ _) as [m | e m] eqn:E; [| discriminate].
  intros [= <-]. rewrite (for_each_add_photo_done _ _ _ _ k E).
  by rewrite lookup_empty.
Qed.

Lemma load_photos_lookup folder buckets k l :
  load_photos folder = inr buckets ->
  buckets !! k = Some l <->
  l = ((fun f => path_str (d_path folder) (p_name f))
         <$> filter (in_week k) (glob_any folder)) /\ l <> [].
Proof.
  intros Hrun.
  rewrite (lookup_default_nonempty _ _ _ (load_photos_nonempty _ _ Hrun)).
  rewrite (load_photos_bucket _ _ k Hrun). split; intros [E Hl]; by split.
Qed.

Lemma load_photos_returns folder :
  (forall f, f ∈ glob_any folder -> Is_true (is_jpeg f) ->
             exists d, get_photo_date f = inr d) <->
  exists buckets, load_photos folder = inr buckets.
Proof.
  rewrite (for_each_add_photo_returns (d_path folder) (glob_any folder) ∅).
  unfold load_photos. split.
  - intros [m ->]. by exists m.
  - intros [b Hb]. destruct (for_each _ _ _) as [m | e m]; [| discriminate].
    by exists m.
Qed.


Lemma glob_any_perm (folder folder' : directory photo_file) :
  d_files folder' ≡ₚ d_files folder -> glob_any folder' ≡ₚ glob_any folder.
Proof. intros Hp. unfold glob_any. by rewrite Hp. Qed.

End PhotoFacts.

(* --------------------------------------------------------------------- *)
(* The ingesters                                                         *)
(* --------------------------------------------------------------------- *)

(** C1 (the program departs from it): a record whose 'ts' both parsers
    refuse is not skipped.  The diagnostic is printed, and the record is
    then filed under the week of the timestamp left in dt by the record
    before it; when no record came before, reading dt raises
    UnboundLocalError and the ingestion stops. *)
Theorem unparseable_ts_is_not_skipped :
  load_spotify_history (lib:=FixedWidth.lib) Samples.stale_folder [] =
    (inr {[ (2024, 10) := [Samples.played_event; Samples.stale_event] ]},
     ["Failed to parse timestamp: Invalid isoformat string: 'garbage'"%string])
  /\
  load_spotify_history (lib:=FixedWidth.lib) Samples.unbound_folder [] =
    (inl UnboundLocalError,
     ["Failed to parse timestamp: Invalid isoformat string: 'garbage'"%string]).
Proof. split; vm_compute; reflexivity. Qed.

(** C4 (the program departs from it): ingestion does not always complete.
    A Streams file whose bytes are not UTF-8 makes json.load raise
    UnicodeDecodeError, which the except clause for json.JSONDecodeError
    does not catch: the run stops at that file, prints nothing, and the
    sound export listed after it is never read.  And a file that parses and
    has a recognised shape, so is not malformed, stops the run with
    UnboundLocalError when its first record carries a timestamp that both
    parsers refuse. *)
Theorem ingestion_aborts_on_one_file :
  load_spotify_history (lib:=FixedWidth.lib) Samples.undecodable_folder [] =
    (inl UnicodeDecodeError, []) /\
  Forall (fun f => malformed f = false) (d_files Samples.unbound_folder) /\
  load_spotify_history (lib:=FixedWidth.lib) Samples.unbound_folder [] =
    (inl UnboundLocalError,
     ["Failed to parse timestamp: Invalid isoformat string: 'garbage'"%string]).
Proof.
  split; [vm_compute; reflexivity |].
  split; [by repeat constructor | vm_compute; reflexivity].
Qed.

Section IngestClaims.
Context {lib : DatetimeLib}.

(* What the two caught cases do give.  In a directory whose export files
   are each either skipped (json.JSONDecodeError, or a top-level shape that
   is not recognised) or well-formed down to their records,
   load_spotify_history returns, prints the diagnostic of every skipped
   file, and returns the very buckets that it returns on the directory
   with the skipped files removed. *)
Lemma malformed_files_are_skipped (folder : directory export_file)
  (out : list string) :
  Forall (fun f => malformed f = true \/ well_formed f)
    (glob_streams folder) ->
  exists buckets new new',
    load_spotify_history folder out = (inr buckets, out ++ new) /\
    load_spotify_history (valid_only folder) out
      = (inr buckets, out ++ new') /\
    forall f, f ∈ glob_streams folder -> malformed f = true ->
      diagnostic (d_path folder) f ∈ new.
Proof.
  intros Hfs.
  destruct (ingest_skips_malformed (d_path folder) (glob_streams folder)
              (mk_state ∅ None out) (mk_state ∅ None out) Hfs
              (agree_refl _))
    as (s1 & s1' & new & E1 & E2 & [Hb _] & Hout & Hdiag).
  pose proof (for_each_files_stdout (d_path folder)
                (filter (fun f => Is_true (negb (malformed f)))
                   (glob_streams folder))
                (mk_state ∅ None out)) as [new' Hout'].
  rewrite E2 in Hout'. simpl in Hout, Hout'.
  exists (st_tracks_by_week s1), new, new'.
  unfold load_spotify_history.
  rewrite glob_streams_valid_only. simpl d_path.
  rewrite E1, E2, Hout, Hout', Hb. done.
Qed.

(** C8: ingesting an unchanged directory twice gives the same bucket
    collections.  A second run of load_spotify_history, started after the
    first with the first run's output already printed, returns (or raises)
    exactly what the first did.  load_photos on a listing of the same files
    gives the same bucket collection, and when the file system lists the
    same files in another order it gives the same set of weeks, each
    holding the same items. *)
Theorem reingest_same_buckets :
  (forall (history : directory export_file) (out : list string),
     (load_spotify_history history
        (load_spotify_history history out).2).1
     = (load_spotify_history history out).1) /\
  (forall album album' : directory photo_file,
     d_path album' = d_path album ->
     d_files album' ≡ₚ d_files album ->
     (d_files album' = d_files album ->
      load_photos album' = load_photos album) /\
     forall buckets, load_photos album = inr buckets ->
       exists buckets',
         load_photos album' = inr buckets' /\
         dom buckets' = dom buckets /\
         forall k,
           default [] (buckets' !! k) ≡ₚ default [] (buckets !! k)).
Proof.
  split; [intros; apply load_spotify_history_stdout |].
  intros album album' Hpath Hperm.
  split.
  { intros Hfiles. destruct album, album'. simpl in *. by subst. }
  intros buckets Hrun.
  pose proof (glob_any_perm album album' Hperm) as Hglob.
  destruct (proj1 (load_photos_returns album')) as [buckets' Hrun'].
  { intros f Hf. rewrite Hglob in Hf. revert f Hf.
    apply load_photos_returns. by exists buckets. }
  exists buckets'. split; [done |].
  assert (Hbuckets : forall k,
    default [] (buckets' !! k) ≡ₚ default [] (buckets !! k)).
  { intros k. rewrite (load_photos_bucket _ _ k Hrun).
    rewrite (load_photos_bucket _ _ k Hrun'), Hpath. by rewrite Hglob. }
  split; [| exact Hbuckets].
  apply set_eq. intros k. rewrite !elem_of_dom.
  specialize (Hbuckets k).
  pose proof (load_photos_nonempty _ _ Hrun k) as Hn.
  pose proof (load_photos_nonempty _ _ Hrun' k) as Hn'.
  destruct (buckets !! k) as [l |] eqn:E,
    (buckets' !! k) as [l' |] eqn:E'; simpl in Hbuckets.
  - split; eauto.
  - apply Permutation_nil_l in Hbuckets. by destruct (Hn l).
  - apply Permutation_nil_r in Hbuckets. by destruct (Hn' l').
  - split; intros [? ?]; done.
Qed.

(** C9: in the bucket collection returned by load_spotify_history and in
    the one returned by load_photos, every key maps to a non-empty list. *)
Theorem buckets_are_nonempty :
  (forall (folder : directory export_file) out buckets out',
     load_spotify_history folder out = (inr buckets, out') ->
     nonempty_buckets buckets) /\
  (forall (folder : directory photo_file) buckets,
     load_photos folder = inr buckets -> nonempty_buckets buckets).
Proof.
  split; [| apply load_photos_nonempty].
  intros folder out buckets out'. unfold load_spotify_history.
  pose proof (for_each_preserves buckets_ok (process_file (d_path folder))
                (glob_streams folder) (mk_state ∅ None out)
                (fun f s => process_file_buckets_ok _ f s)
                nonempty_buckets_empty) as Hok.
  destruct (for_each _ _ _) as [s | e s]; [| discriminate].
  by intros [= <- _].
Qed.

End IngestClaims.

Section PhotoClaims.
Context {lib : DatetimeLib}.




(** C7 (as amended): every entry of a photo bucket is the path, as a
    string, of a .jpg or .jpeg file that the glob yields, and the bucket's
    key is the week of that file's resolved timestamp; the entry is the
    path alone. *)
Theorem photo_bucket_entries_are_paths (folder : directory photo_file)
  (buckets : gmap (Z * Z) (list string))
  (k : Z * Z) (l : list string) (entry : string) :
  load_photos folder = inr buckets ->
  buckets !! k = Some l -> entry ∈ l ->
  exists f d, f ∈ glob_any folder /\ Is_true (is_jpeg f) /\
              entry = path_str (d_path folder) (p_name f) /\
              resolved_timestamp f = inr d /\ get_year_week d = k.
Proof.
  intros Hrun Hk Hin.
  apply (load_photos_lookup _ _ _ _ Hrun) in Hk as [-> _].
  apply list_elem_of_fmap in Hin as (f & -> & Hf).
  apply list_elem_of_filter in Hf as [[Hj Hw] Hf].
  destruct (get_photo_date f) as [e | d] eqn:Hd; [done |].
  exists f, d. rewrite <- get_photo_date_resolved. by repeat split.
Qed.

End PhotoClaims.


(** C7 (as stated, refuted): the entries of the photo buckets do not carry
    the resolved timestamp.  Two folders hold a photo of the same path
    taken on different days of one week; load_photos stores the same entry
    for both, so no timestamp can be read off it. *)
Lemma photo_entries_lack_timestamp :
  ~ entries_carry_timestamp (lib:=FixedWidth.lib).
Proof.
  intros [timestamp_of Hts].
  pose proof (Hts Samples.album_monday
                {[ (2024, 10) := ["/photos/a.jpg"%string] ]}
                (Samples.shot "a.jpg" Samples.monday) (2024, 10)
                ["/photos/a.jpg"%string] Samples.monday) as H1.
  pose proof (Hts Samples.album_tuesday
                {[ (2024, 10) := ["/photos/a.jpg"%string] ]}
                (Samples.shot "a.jpg" Samples.tuesday) (2024, 10)
                ["/photos/a.jpg"%string] Samples.tuesday) as H2.
  assert (E1 : timestamp_of "/photos/a.jpg"%string = Samples.monday).
  { apply H1; [by vm_compute | by vm_compute | | exact I | | done];
      vm_compute; by left. }
  assert (E2 : timestamp_of "/photos/a.jpg"%string = Samples.tuesday).
  { apply H2; [by vm_compute | by vm_compute | | exact I | | done];
      vm_compute; by left. }
  rewrite E1 in E2. discriminate.
Qed.

Lemma photo_bucket_entries_are_paths_witness :
  let buckets : gmap (Z * Z) (list string) :=
    {[ (2024, 10) := ["/photos/a.JPG"; "/photos/b.jpeg"]%string ]} in
  (load_photos (lib:=FixedWidth.lib) Samples.album = inr buckets /\
   buckets !! (2024, 10) = Some ["/photos/a.JPG"; "/photos/b.jpeg"]%string)
  /\
  exists f d, f ∈ glob_any Samples.album /\ Is_true (is_jpeg f) /\
              "/photos/b.jpeg"%string
              = path_str (d_path Samples.album) (p_name f) /\
              resolved_timestamp (lib:=FixedWidth.lib) f = inr d /\
              get_year_week d = (2024, 10).
Proof.
  intros buckets.
  assert (Hrun : load_photos (lib:=FixedWidth.lib) Samples.album
                 = inr buckets) by (vm_compute; reflexivity).
  assert (Hk : buckets !! (2024, 10)
               = Some ["/photos/a.JPG"; "/photos/b.jpeg"]%string)
    by (vm_compute; reflexivity).
  split; [by split |].
  apply (photo_bucket_entries_are_paths (lib:=FixedWidth.lib)
           Samples.album buckets (2024, 10) _ _ Hrun Hk).
  right. left.
Defined.


Lemma malformed_files_are_skipped_witness :
  Forall (fun f => malformed f = true \/ well_formed (lib:=FixedWidth.lib) f)
    (glob_streams Samples.mixed_folder) /\
  exists buckets new new',
    load_spotify_history (lib:=FixedWidth.lib) Samples.mixed_folder []
      = (inr buckets, [] ++ new) /\
    load_spotify_history (lib:=FixedWidth.lib)
      (valid_only Samples.mixed_folder) [] = (inr buckets, [] ++ new') /\
    forall f, f ∈ glob_streams Samples.mixed_folder ->
      malformed f = true ->
      diagnostic (d_path Samples.mixed_folder) f ∈ new.
Proof.
  assert (Hfs :
    Forall (fun f => malformed f = true
                     \/ well_formed (lib:=FixedWidth.lib) f)
      (glob_streams Samples.mixed_folder)).
  { change (glob_streams Samples.mixed_folder)
      with [mk_export_file "Streams0.json" JSONDecodeError;
            mk_export_file "Streams1.json" (Loaded (JList [Samples.played]));
            mk_export_file "Streams2.json" (Loaded (JStr "plays"))].
    constructor; [by left |]. constructor; [| constructor; [by left |]].
    - right. exists (JList [Samples.played]), [Samples.played].
      do 2 (split; [done |]). constructor; [| constructor].
      eexists. split; [reflexivity |]. left. vm_compute. by eexists.
    - constructor. }
  split; [exact Hfs |].
  exact (malformed_files_are_skipped (lib:=FixedWidth.lib)
           Samples.mixed_folder [] Hfs).
Defined.

Lemma reingest_same_buckets_witness :
  let before := mk_directory "/photos"
    [Samples.shot "a.jpg" Samples.monday;
     Samples.shot "b.jpg" Samples.tuesday] in
  let after := mk_directory "/photos"
    [Samples.shot "b.jpg" Samples.tuesday;
     Samples.shot "a.jpg" Samples.monday] in
  let buckets : gmap (Z * Z) (list string) :=
    {[ (2024, 10) := ["/photos/a.jpg"; "/photos/b.jpg"]%string ]} in
  (d_path after = d_path before /\ d_files after ≡ₚ d_files before /\
   load_photos (lib:=FixedWidth.lib) before = inr buckets) /\
  exists buckets',
    load_photos (lib:=FixedWidth.lib) after = inr buckets' /\
    dom buckets' = dom buckets /\
    forall k, default [] (buckets' !! k) ≡ₚ default [] (buckets !! k).
Proof.
  intros before after buckets.
  assert (Hperm : d_files after ≡ₚ d_files before) by apply perm_swap.
  assert (Hrun : load_photos (lib:=FixedWidth.lib) before = inr buckets)
    by (vm_compute; reflexivity).
  split; [by repeat split |].
  exact (proj2 (proj2 (reingest_same_buckets (lib:=FixedWidth.lib))
                  before after eq_refl Hperm) buckets Hrun).
Defined.

Lemma buckets_are_nonempty_witness :
  load_spotify_history (lib:=FixedWidth.lib) Samples.mixed_folder []
  = (inr {[ (2024, 10) := [Samples.played_event] ]},
     ["Skipping invalid JSON file: /history/Streams0.json";
      "Skipping unexpected format in file: /history/Streams2.json"]%string)
  /\
  nonempty_buckets
    ({[ (2024, 10) := [Samples.played_event] ]} : gmap (Z * Z) (list event)).
Proof.
  assert (Hrun :
    load_spotify_history (lib:=FixedWidth.lib) Samples.mixed_folder []
    = (inr {[ (2024, 10) := [Samples.played_event] ]},
       ["Skipping invalid JSON file: /history/Streams0.json";
        "Skipping unexpected format in file: /history/Streams2.json"]%string))
    by (vm_compute; reflexivity).
  split; [exact Hrun |].
  exact (proj1 (buckets_are_nonempty (lib:=FixedWidth.lib)) _ _ _ _ Hrun).
Defined.

(* --------------------------------------------------------------------- *)
(* get_year_week: what the week key groups together                      *)
(* --------------------------------------------------------------------- *)

Section WeekKeyUse.

Lemma thursday_gap (y t t' : Z) :
  ISO8601.first_thursday y t -> ISO8601.first_thursday (y + 1) t' ->
  t' - t = 364 \/ t' - t = 371.
Proof.
  intros [Hw Hr] [Hw' Hr']. rewrite jan1_ordinal in Hr, Hr'.
  pose proof (year_length y) as Hl.
  unfold weekday_of_ordinal, THURSDAY in *.
  destruct (_is_leap y); Z.div_mod_to_equations; lia.
Qed.

(** X1: for every date a datetime can hold, the week number returned by
    get_year_week lies between 1 and 53, and the ISO year is the calendar
    year of the date, the one before or the one after. *)
Theorem get_year_week_range (dt : datetime) :
  valid_date dt ->
  1 <= (get_year_week dt).2 <= 53 /\
  year dt - 1 <= (get_year_week dt).1 <= year dt + 1.
Proof.
  intros Hv. split.
  - destruct (get_year_week_week_of dt Hv) as (t & t' & Ht & Ht' & Ho & Hw).
    pose proof (thursday_gap _ _ _ Ht Ht') as Hgap.
    cbn [fst snd] in *. rewrite Hw.
    Z.div_mod_to_equations. lia.
  - unfold get_year_week, isocalendar. cbv zeta.
    destruct (_ <? 0); [cbn [fst]; lia |].
    destruct (_ && _); cbn [fst]; lia.
Qed.

Lemma get_year_week_range_witness :
  valid_date (mk_datetime 2020 12 31 12 0 0 0 None) /\
  1 <= (get_year_week (mk_datetime 2020 12 31 12 0 0 0 None)).2 <= 53.
Proof.
  assert (Hv : valid_date (mk_datetime 2020 12 31 12 0 0 0 None))
    by (repeat split; by vm_compute).
  split; [exact Hv |].
  exact (proj1 (get_year_week_range _ Hv)).
Defined.

(** X2: two dates get the same week key exactly when they lie in the same
    Monday-to-Sunday week, that is when their day numbers, counted from
    Monday 0001-01-01 as day 1, fall in the same block of seven. *)
Theorem get_year_week_same_week (d1 d2 : datetime) :
  valid_date d1 -> valid_date d2 ->
  get_year_week d1 = get_year_week d2 <->
  (toordinal d1 - 1) / 7 = (toordinal d2 - 1) / 7.
Proof.
  intros Hv1 Hv2.
  pose proof (get_year_week_week_of d1 Hv1) as Hk1.
  pose proof (get_year_week_week_of d2 Hv2) as Hk2.
  split.
  - intros E. rewrite <- E in Hk2.
    destruct Hk1 as (t & t' & Ht & Ht' & Ho & Hw).
    destruct Hk2 as (u & u' & Hu & Hu' & Ho2 & Hw2).
    rewrite (first_thursday_unique _ _ _ Hu Ht) in *.
    destruct Ht as [Hwd _]. unfold weekday_of_ordinal, THURSDAY in Hwd.
    rewrite Hw in Hw2. clear - Hwd Ho Ho2 Hw2.
    Z.div_mod_to_equations. lia.
  - intros E.
    destruct Hk1 as (t & t' & Ht & Ht' & Ho & Hw).
    symmetry. apply (week_of_functional (toordinal d2)); [exact Hk2 |].
    exists t, t'. split; [exact Ht |]. split; [exact Ht' |].
    destruct Ht as [Hwd _], Ht' as [Hwd' _].
    unfold weekday_of_ordinal, THURSDAY in Hwd, Hwd'.
    rewrite Hw. clear - Hwd Hwd' Ho E.
    split; Z.div_mod_to_equations; lia.
Qed.

Lemma get_year_week_same_week_witness :
  let sunday := mk_datetime 2021 1 3 23 59 59 0 None in
  let monday := mk_datetime 2020 12 28 0 0 0 0 None in
  (valid_date sunday /\ valid_date monday) /\
  (get_year_week sunday = get_year_week monday <->
   (toordinal sunday - 1) / 7 = (toordinal monday - 1) / 7).
Proof.
  intros sunday monday.
  assert (Hs : valid_date sunday) by (repeat split; by vm_compute).
  assert (Hm : valid_date monday) by (repeat split; by vm_compute).
  split; [by split |].
  exact (get_year_week_same_week sunday monday Hs Hm).
Defined.

End WeekKeyUse.

(* --------------------------------------------------------------------- *)
(* load_spotify_history: what the buckets hold                           *)
(* --------------------------------------------------------------------- *)

Lemma all_entries_empty {A} (phi : Z * Z -> A -> Prop) : all_entries phi ∅.
Proof. intros k l e Hk. by rewrite lookup_empty in Hk. Qed.

Lemma all_entries_setdefault_append {A} (phi : Z * Z -> A -> Prop)
  (k : Z * Z) (x : A) (d : gmap (Z * Z) (list A)) :
  phi k x -> all_entries phi d -> all_entries phi (setdefault_append k x d).
Proof.
  intros Hx Hd k' l e. unfold setdefault_append.
  destruct (decide (k = k')) as [<- | Hne].
  - rewrite lookup_insert_eq. intros [= <-] Hin.
    apply elem_of_app in Hin as [Hin | Hin].
    + destruct (d !! k) as [l0 |] eqn:E; simpl in Hin.
      * by apply (Hd k l0).
      * by apply not_elem_of_nil in Hin.
    + apply list_elem_of_singleton in Hin as ->. exact Hx.
  - rewrite lookup_insert_ne by done. apply Hd.
Qed.

Lemma buckets_extend_refl {A} (d : gmap (Z * Z) (list A)) :
  buckets_extend d d.
Proof. intros k l Hk. exists []. by rewrite app_nil_r. Qed.

Lemma buckets_extend_trans {A} (d1 d2 d3 : gmap (Z * Z) (list A)) :
  buckets_extend d1 d2 -> buckets_extend d2 d3 -> buckets_extend d1 d3.
Proof.
  intros H12 H23 k l Hk.
  destruct (H12 k l Hk) as [l1 H1]. destruct (H23 _ _ H1) as [l2 H2].
  exists (l1 ++ l2). by rewrite app_assoc.
Qed.

Lemma buckets_extend_setdefault_append {A} (k : Z * Z) (x : A)
  (d : gmap (Z * Z) (list A)) :
  buckets_extend d (setdefault_append k x d).
Proof.
  intros k' l Hk. unfold setdefault_append.
  destruct (decide (k = k')) as [<- | Hne].
  - rewrite lookup_insert_eq, Hk. by exists [x].
  - rewrite lookup_insert_ne by done. exists []. by rewrite app_nil_r.
Qed.

Lemma py_or_default_not_none (v : json) (s : string) :
  py_or v (JStr s) <> JNull.
Proof.
  unfold py_or. destruct (truthy v) eqn:E; [| done].
  intros ->. discriminate E.
Qed.

Section HistoryContents.
Context {lib : DatetimeLib}.

(* What the bucketing step does to the state: it raises on an unbound dt,
   or appends, under the week of dt, an event stamped with dt whose artist
   and track are not None. *)
Lemma bucket_entry_cases kvs st :
  (st_dt st = None /\ bucket_entry kvs st = Raised UnboundLocalError st) \/
  (exists d ev,
     st_dt st = Some d /\
     bucket_entry kvs st = Done (append_event (get_year_week d) ev st) /\
     timestamp ev = d /\ artist ev <> JNull /\ track ev <> JNull /\
     ms_played ev = dict_get kvs "ms_played" /\
     uri ev = dict_get kvs "spotify_track_uri").
Proof.
  unfold bucket_entry. destruct (st_dt st) as [d |]; [right | by left].
  destruct (is_none (dict_get kvs "master_metadata_track_name")
            || is_none (dict_get kvs "master_metadata_album_artist_name"))
    eqn:En.
  - eexists d, _. split; [done |]. split; [reflexivity |].
    cbn [timestamp artist track ms_played uri].
    repeat split; apply py_or_default_not_none.
  - apply orb_false_iff in En as [Et Ea].
    eexists d, _. split; [done |]. split; [reflexivity |].
    cbn [timestamp artist track ms_played uri].
    repeat split.
    + intros E. by rewrite E in Ea.
    + intros E. by rewrite E in Et.
Qed.

Lemma bucket_entry_filed kvs st :
  all_entries filed (st_tracks_by_week st) ->
  all_entries filed (st_tracks_by_week (outcome_state (bucket_entry kvs st))).
Proof.
  intros Hst.
  destruct (bucket_entry_cases kvs st)
    as [[_ ->] | (d & ev & _ & -> & Hd & Ha & Ht & _)]; [done |].
  simpl. apply all_entries_setdefault_append; [| done].
  by rewrite <- Hd.
Qed.

Lemma process_entry_filed entry st :
  all_entries filed (st_tracks_by_week st) ->
  all_entries filed
    (st_tracks_by_week (outcome_state (process_entry entry st))).
Proof.
  intros Hst. unfold process_entry.
  destruct entry as [| b | z | s | l | kvs]; simpl; try done.
  - by destruct (str_has s "ts").
  - by destruct (list_has l "ts").
  - destruct (dict_lookup kvs "ts") as [[| b | z | ts | l | kvs'] |];
      simpl; try done.
    apply bucket_entry_filed. by rewrite parse_ts_buckets.
Qed.

Lemma process_file_filed folder f st :
  all_entries filed (st_tracks_by_week st) ->
  all_entries filed
    (st_tracks_by_week (outcome_state (process_file folder f st))).
Proof.
  intros Hst. unfold process_file.
  destruct (f_json f) as [data | | e]; [| done | done].
  set (data' := match data with
                | JDict kvs => unwrap_list kvs possible_list_keys
                | _ => data
                end).
  destruct data'; try done.
  apply (for_each_preserves
           (fun s => all_entries filed (st_tracks_by_week s))); [| done].
  intros. by apply process_entry_filed.
Qed.

Lemma load_spotify_history_filed folder out buckets out' :
  load_spotify_history folder out = (inr buckets, out') ->
  all_entries filed buckets.
Proof.
  unfold load_spotify_history.
  pose proof (for_each_preserves
                (fun s => all_entries filed (st_tracks_by_week s))
                (process_file (d_path folder)) (glob_streams folder)
                (mk_state ∅ None out)
                (fun f s => process_file_filed _ f s)
                (all_entries_empty _)) as Hok.
  destruct (for_each _ _ _) as [s | e s]; [| discriminate].
  by intros [= <- _].
Qed.

(** X3: in the bucket collection that load_spotify_history returns, every
    event lies in the bucket of the ISO week of its own timestamp field. *)
Theorem history_events_keyed_by_own_week (folder : directory export_file)
  (out out' : list string) (buckets : gmap (Z * Z) (list event))
  (k : Z * Z) (l : list event) (e : event) :
  load_spotify_history folder out = (inr buckets, out') ->
  buckets !! k = Some l -> e ∈ l ->
  get_year_week (timestamp e) = k.
Proof.
  intros Hrun Hk He.
  by destruct (load_spotify_history_filed _ _ _ _ Hrun k l e Hk He).
Qed.

Lemma py_or_chain (a b c : json) :
  py_or (py_or a b) c = first_truthy [a; b] c.
Proof.
  unfold py_or. simpl. destruct (truthy a) eqn:Ea; [by rewrite Ea |].
  by destruct (truthy b) eqn:Eb; rewrite ?Eb.
Qed.

Lemma bucket_entry_named kvs st st' :
  bucket_entry kvs st = Done st' ->
  exists d ev, st' = append_event (get_year_week d) ev st /\
               named_from kvs ev.
Proof.
  unfold bucket_entry. destruct (st_dt st) as [d |]; [| discriminate].
  destruct (is_none (dict_get kvs "master_metadata_track_name")
            || is_none (dict_get kvs "master_metadata_album_artist_name"))
    eqn:En; intros [= <-]; eexists d, _; (split; [reflexivity |]);
    unfold named_from; cbn [track artist].
  - right. split; [| by rewrite !py_or_chain].
    apply orb_true_iff in En as [En | En]; [left | right];
      by destruct (dict_get kvs _).
  - left. apply orb_false_iff in En as [Et Ea].
    repeat split; try done; intros E; by rewrite E in *.
Qed.

Lemma for_each_preserves_in {X S} (I : S -> Prop)
  (body : X -> S -> outcome S) (xs : list X) (s : S) :
  (forall x s, x ∈ xs -> I s -> I (outcome_state (body x s))) ->
  I s -> I (outcome_state (for_each body xs s)).
Proof.
  revert s. induction xs as [| x xs IH]; intros s Hbody Hs; [done |].
  simpl. pose proof (Hbody x s ltac:(by left) Hs) as Hx.
  destruct (body x s) as [s' | e s']; simpl in *; [| done].
  apply IH; [| done]. intros y s0 Hy. apply Hbody. by right.
Qed.

Lemma process_file_sourced folder f st :
  f ∈ glob_streams folder ->
  all_entries (fun _ e => exists kvs, recorded folder kvs /\ named_from kvs e)
    (st_tracks_by_week st) ->
  all_entries (fun _ e => exists kvs, recorded folder kvs /\ named_from kvs e)
    (st_tracks_by_week (outcome_state (process_file (d_path folder) f st))).
Proof.
  intros Hf Hst.
  destruct (f_json f) as [data | | e] eqn:Ej.
  - destruct (records_of data) as [l |] eqn:Er.
    + rewrite (process_file_records _ f data l st Ej Er).
      apply (for_each_preserves_in
               (fun s => all_entries
                           (fun _ e => exists kvs, recorded folder kvs
                                                   /\ named_from kvs e)
                           (st_tracks_by_week s))); [| done].
      intros entry s Hentry Hs. unfold process_entry.
      destruct entry as [| b | z | s0 | l' | kvs]; simpl; try done.
      * by destruct (str_has s0 "ts").
      * by destruct (list_has l' "ts").
      * destruct (dict_lookup kvs "ts") as [[| b | z | ts | l' | kvs'] |];
          simpl; try done.
        destruct (bucket_entry kvs (parse_ts ts s)) as [s' | e s'] eqn:Eb;
          simpl.
        -- apply bucket_entry_named in Eb as (d & ev & -> & Hev). simpl.
           apply all_entries_setdefault_append.
           ++ exists kvs. split; [| done]. by exists f, data, l.
           ++ by rewrite parse_ts_buckets.
        -- unfold bucket_entry in Eb.
           destruct (st_dt (parse_ts ts s)); [| injection Eb as _ <-].
           ++ by destruct (is_none _ || is_none _).
           ++ by rewrite parse_ts_buckets.
    + rewrite process_file_malformed; [done |].
      unfold malformed. by rewrite Ej, Er.
  - rewrite process_file_malformed; [done |].
    unfold malformed. by rewrite Ej.
  - unfold process_file. by rewrite Ej.
Qed.

(** X4: every event in the dict that load_spotify_history returns takes
    its names from a record of a globbed export by the fallback chain of
    the source: the two
    master_metadata names when neither is None; otherwise, for the track,
    the track name if truthy, else episode_name if truthy, else
    'Unknown Track', and for the artist the artist name, else
    episode_show_name, else 'Unknown Artist'.  So no stored event has None
    as its artist or as its track. *)
Theorem history_events_are_named (folder : directory export_file)
  (out out' : list string) (buckets : gmap (Z * Z) (list event))
  (k : Z * Z) (l : list event) (e : event) :
  load_spotify_history folder out = (inr buckets, out') ->
  buckets !! k = Some l -> e ∈ l ->
  (exists kvs, recorded folder kvs /\ named_from kvs e) /\
  artist e <> JNull /\ track e <> JNull.
Proof.
  intros Hrun Hk He. split.
  - revert Hrun. unfold load_spotify_history.
    pose proof (for_each_preserves_in
                  (fun s => all_entries
                              (fun _ e => exists kvs, recorded folder kvs
                                                      /\ named_from kvs e)
                              (st_tracks_by_week s))
                  (process_file (d_path folder)) (glob_streams folder)
                  (mk_state ∅ None out)
                  (fun f s Hf => process_file_sourced folder f s Hf)
                  (all_entries_empty _)) as Hok.
    destruct (for_each _ _ _) as [s | e' s]; [| discriminate].
    intros [= <- _]. exact (Hok k l e Hk He).
  - by destruct (load_spotify_history_filed _ _ _ _ Hrun k l e Hk He)
      as (_ & Ha & Ht).
Qed.

End HistoryContents.

Lemma history_events_keyed_by_own_week_witness :
  load_spotify_history (lib:=FixedWidth.lib) Samples.stale_folder []
  = (inr {[ (2024, 10) := [Samples.played_event; Samples.stale_event] ]},
     ["Failed to parse timestamp: Invalid isoformat string: 'garbage'"%string])
  /\ get_year_week (timestamp Samples.stale_event) = (2024, 10).
Proof.
  assert (Hrun :
    load_spotify_history (lib:=FixedWidth.lib) Samples.stale_folder []
    = (inr {[ (2024, 10) := [Samples.played_event; Samples.stale_event] ]},
       ["Failed to parse timestamp: Invalid isoformat string: 'garbage'"%string]))
    by (vm_compute; reflexivity).
  split; [exact Hrun |].
  apply (history_events_keyed_by_own_week (lib:=FixedWidth.lib)
           _ _ _ _ (2024, 10) [Samples.played_event; Samples.stale_event]
           _ Hrun).
  - by vm_compute.
  - right. left.
Defined.

Lemma history_events_are_named_witness :
  load_spotify_history (lib:=FixedWidth.lib) episode_folder []
  = (inr {[ (2024, 10) := [episode_event] ]}, []) /\
  exists kvs, recorded episode_folder kvs /\ named_from kvs episode_event.
Proof.
  assert (Hrun :
    load_spotify_history (lib:=FixedWidth.lib) episode_folder []
    = (inr {[ (2024, 10) := [episode_event] ]}, []))
    by (vm_compute; reflexivity).
  split; [exact Hrun |].
  apply (history_events_are_named (lib:=FixedWidth.lib)
           _ _ _ _ (2024, 10) [episode_event] _ Hrun).
  - by vm_compute.
  - left.
Defined.

Section LoopFacts.
Context {X S : Type}.

Lemma for_each_app (body : X -> S -> outcome S) (xs ys : list X) (s : S) :
  for_each body (xs ++ ys) s =
  match for_each body xs s with
  | Done s' => for_each body ys s'
  | Raised e s' => Raised e s'
  end.
Proof.
  revert s. induction xs as [| x xs IH]; intros s; [done |].
  simpl. destruct (body x s) as [s' | e s']; [apply IH | done].
Qed.


End LoopFacts.

Section HistoryGrowth.
Context {lib : DatetimeLib}.

Lemma process_entry_extends entry st :
  buckets_extend (st_tracks_by_week st)
    (st_tracks_by_week (outcome_state (process_entry entry st))).
Proof.
  unfold process_entry.
  destruct entry as [| b | z | s | l | kvs]; simpl;
    try apply buckets_extend_refl.
  - destruct (str_has s "ts"); apply buckets_extend_refl.
  - destruct (list_has l "ts"); apply buckets_extend_refl.
  - destruct (dict_lookup kvs "ts") as [[| b | z | ts | l | kvs'] |];
      simpl; try apply buckets_extend_refl.
    rewrite <- (parse_ts_buckets ts st).
    destruct (bucket_entry_cases kvs (parse_ts ts st))
      as [[_ ->] | (d & ev & _ & -> & _)]; simpl.
    + apply buckets_extend_refl.
    + apply buckets_extend_setdefault_append.
Qed.

Lemma process_file_extends folder f st :
  buckets_extend (st_tracks_by_week st)
    (st_tracks_by_week (outcome_state (process_file folder f st))).
Proof.
  unfold process_file.
  destruct (f_json f) as [data | | e];
    [| apply buckets_extend_refl | apply buckets_extend_refl].
  set (data' := match data with
                | JDict kvs => unwrap_list kvs possible_list_keys
                | _ => data
                end).
  destruct data'; try apply buckets_extend_refl.
  apply (for_each_preserves
           (fun s => buckets_extend (st_tracks_by_week st)
                       (st_tracks_by_week s)));
    [| apply buckets_extend_refl].
  intros x s Hs. eapply buckets_extend_trans;
    [exact Hs | apply process_entry_extends].
Qed.

Lemma for_each_files_extends folder fs st :
  buckets_extend (st_tracks_by_week st)
    (st_tracks_by_week
       (outcome_state (for_each (process_file folder) fs st))).
Proof.
  apply (for_each_preserves
           (fun s => buckets_extend (st_tracks_by_week st)
                       (st_tracks_by_week s)));
    [| apply buckets_extend_refl].
  intros x s Hs. eapply buckets_extend_trans;
    [exact Hs | apply process_file_extends].
Qed.

(** X5: ingestion only appends.  When load_spotify_history returns on a
    listing, it also returns on every initial part of the listing, and the
    buckets of the whole listing hold the buckets of the initial part with
    the same events in front, in the same order; the output of the initial
    part is the beginning of the whole output. *)
Theorem ingestion_only_appends (path : string) (fs1 fs2 : list export_file)
  (out out2 : list string) (b2 : gmap (Z * Z) (list event)) :
  load_spotify_history (mk_directory path (fs1 ++ fs2)) out = (inr b2, out2) ->
  exists b1 out1,
    load_spotify_history (mk_directory path fs1) out = (inr b1, out1) /\
    buckets_extend b1 b2 /\ out1 `prefix_of` out2.
Proof.
  unfold load_spotify_history, glob_streams. simpl.
  rewrite filter_app, for_each_app.
  destruct (for_each _ (filter _ fs1) _) as [s1 | e1 s1]; [| discriminate].
  pose proof (for_each_files_extends path
                (filter (fun f => Is_true (fnmatch "Streams*.json" (f_name f)))
                   fs2) s1) as Hb.
  pose proof (for_each_files_stdout path
                (filter (fun f => Is_true (fnmatch "Streams*.json" (f_name f)))
                   fs2) s1) as [new Hout].
  destruct (for_each _ (filter _ fs2) s1) as [s2 | e2 s2]; [| discriminate].
  intros [= <- <-]. simpl in *.
  exists (st_tracks_by_week s1), (st_stdout s1).
  split; [done |]. split; [done |]. by exists new.
Qed.


(** X7: an object without a 'ts' member is skipped without a trace:
    a list export is ingested exactly as the same list with those records
    taken out, with the same buckets, the same dt and the same output. *)
Theorem untimed_records_are_skipped (folder name : string) (l : list json)
  (st : state) :
  process_file folder (mk_export_file name (Loaded (JList l))) st =
  process_file folder
    (mk_export_file name
       (Loaded (JList (filter (fun r => Is_true (negb (untimed r))) l)))) st.
Proof.
  unfold process_file. simpl. revert st.
  induction l as [| r l IH]; intros st; [done |].
  rewrite filter_cons. destruct (untimed r) eqn:Er.
  - rewrite decide_False by (intros []). cbn [for_each].
    destruct r as [| b | z | s | l' | kvs]; try discriminate.
    unfold untimed, dict_has in Er. simpl.
    destruct (dict_lookup kvs "ts"); [discriminate | apply IH].
  - rewrite decide_True by exact I. cbn [for_each].
    destruct (process_entry r st); [apply IH | done].
Qed.

Lemma unwrap_list_first (kvs : list (string * json)) (pre post : list string)
  (key : string) (l : list json) :
  Forall (fun k' => forall l', dict_lookup kvs k' <> Some (JList l')) pre ->
  dict_lookup kvs key = Some (JList l) ->
  unwrap_list kvs (pre ++ key :: post) = JList l.
Proof.
  intros Hpre Hkey. induction Hpre as [| k' pre Hk' Hpre IH]; simpl.
  - by rewrite Hkey.
  - destruct (dict_lookup kvs k') as [[| b | z | s | l' | kvs'] |];
      try apply IH.
    by destruct (Hk' l').
Qed.

Lemma unwrap_list_none (kvs : list (string * json)) (keys : list string) :
  Forall (fun k' => forall l', dict_lookup kvs k' <> Some (JList l')) keys ->
  unwrap_list kvs keys = JDict kvs.
Proof.
  intros Hkeys. induction Hkeys as [| k' keys Hk' Hkeys IH]; simpl; [done |].
  destruct (dict_lookup kvs k') as [[| b | z | s | l' | kvs'] |];
    try apply IH.
  by destruct (Hk' l').
Qed.

(** X8: an export whose top level is an object is read through the first
    of the keys streaming_history, playback, plays that holds a list, and
    is then ingested exactly as that list would be; known keys that hold
    something else and all other members are ignored.  When none of the
    three holds a list the file is skipped with the 'unexpected format'
    line and nothing else changes. *)
Theorem object_export_read_through_first_list (folder name : string)
  (kvs : list (string * json)) (st : state) :
  (forall pre key post l,
     possible_list_keys = pre ++ key :: post ->
     Forall (fun k' => forall l', dict_lookup kvs k' <> Some (JList l')) pre ->
     dict_lookup kvs key = Some (JList l) ->
     process_file folder (mk_export_file name (Loaded (JDict kvs))) st =
     process_file folder (mk_export_file name (Loaded (JList l))) st) /\
  (Forall (fun k' => forall l', dict_lookup kvs k' <> Some (JList l'))
     possible_list_keys ->
   process_file folder (mk_export_file name (Loaded (JDict kvs))) st =
   Done (print ("Skipping unexpected format in file: " +:+
                path_str folder name) st)).
Proof.
  split.
  - intros pre key post l Hkeys Hpre Hkey. unfold process_file.
    cbn [f_json f_name]. rewrite Hkeys.
    by rewrite (unwrap_list_first kvs pre post key l Hpre Hkey).
  - intros Hnone. unfold process_file. cbn [f_json f_name].
    by rewrite (unwrap_list_none kvs _ Hnone).
Qed.

End HistoryGrowth.

Lemma ingestion_only_appends_witness :
  let first := mk_export_file "Streams1.json"
                 (Loaded (JList [Samples.played])) in
  let second := mk_export_file "Streams2.json"
                  (Loaded (JList [Samples.garbled])) in
  load_spotify_history (lib:=FixedWidth.lib)
    (mk_directory "/history" ([first] ++ [second])) []
  = (inr {[ (2024, 10) := [Samples.played_event; Samples.stale_event] ]},
     ["Failed to parse timestamp: Invalid isoformat string: 'garbage'"%string])
  /\
  exists b1 out1,
    load_spotify_history (lib:=FixedWidth.lib)
      (mk_directory "/history" [first]) [] = (inr b1, out1) /\
    buckets_extend b1
      {[ (2024, 10) := [Samples.played_event; Samples.stale_event] ]} /\
    out1 `prefix_of`
      ["Failed to parse timestamp: Invalid isoformat string: 'garbage'"%string].
Proof.
  intros first second.
  assert (Hrun :
    load_spotify_history (lib:=FixedWidth.lib)
      (mk_directory "/history" ([first] ++ [second])) []
    = (inr {[ (2024, 10) := [Samples.played_event; Samples.stale_event] ]},
       ["Failed to parse timestamp: Invalid isoformat string: 'garbage'"%string]))
    by (vm_compute; reflexivity).
  split; [exact Hrun |].
  exact (ingestion_only_appends (lib:=FixedWidth.lib) _ _ _ _ _ _ Hrun).
Defined.


Lemma object_export_read_through_first_list_witness :
  let kvs := [("playback", JStr "none");
              ("plays", JList [Samples.played]);
              ("streaming_history", JNum 3)]%string in
  let st := mk_state ∅ None [] in
  (possible_list_keys = ["streaming_history"; "playback"]%string
                        ++ "plays"%string :: [] /\
   dict_lookup kvs "plays" = Some (JList [Samples.played])) /\
  process_file (lib:=FixedWidth.lib) "/history"
    (mk_export_file "Streams1.json" (Loaded (JDict kvs))) st =
  process_file (lib:=FixedWidth.lib) "/history"
    (mk_export_file "Streams1.json" (Loaded (JList [Samples.played]))) st.
Proof.
  intros kvs st. split; [by split |].
  apply (proj1 (object_export_read_through_first_list
                  (lib:=FixedWidth.lib) "/history" "Streams1.json" kvs st)
           ["streaming_history"; "playback"]%string "plays"%string []
           [Samples.played]); [reflexivity | | reflexivity].
  constructor; [intros l'; by vm_compute |].
  constructor; [intros l'; by vm_compute | constructor].
Defined.

(* --------------------------------------------------------------------- *)
(* The sampler: how it fails, what it asks of the generator              *)
(* --------------------------------------------------------------------- *)

Section SamplerRuns.
Context {T P G : Type} {src : RandomSource G}.
Implicit Types (tracks : gmap (Z * Z) (list T)).
Implicit Types (photos : gmap (Z * Z) (list P)).

Lemma run_choice_raise {A} (l : list A) (g g' : G) (e : exn) :
  run (choice l) g = (inl e, g') -> e = IndexError /\ l = [] /\ g' = g.
Proof.
  destruct l as [| a l]; [by intros [= <- <-] |].
  cbn [choice run].
  pose proof (randbelow_lt (length (a :: l)) g ltac:(simpl; lia)) as Hlt.
  destruct (randbelow _ g) as [i g1]. simpl in Hlt.
  destruct (lookup_lt_is_Some_2 (a :: l) i Hlt) as [y Hy].
  rewrite Hy. discriminate.
Qed.

Lemma run_choice_singleton {A} (x : A) (g : G) :
  exists g', run (choice [x]) g = (inr x, g').
Proof.
  cbn [choice run length].
  pose proof (randbelow_lt 1 g ltac:(lia)) as Hlt.
  destruct (randbelow 1 g) as [i g1]. simpl in Hlt.
  replace i with O by lia. by exists g1.
Qed.

Lemma bounds_bind {A B} (p : rand A) (f : A -> rand B) (g : G) :
  bounds (bind p f) g =
  bounds p g ++ match run p g with
                | (inr a, g') => bounds (f a) g'
                | (inl _, _) => []
                end.
Proof.
  revert g. induction p as [a | e | n k IH]; intros g; simpl; try done.
  destruct (randbelow n g) as [i g']. simpl. f_equal. apply IH.
Qed.

Lemma bounds_choice {A} (l : list A) (g : G) :
  l <> [] -> bounds (choice l) g = [length l].
Proof.
  intros Hl. destruct l as [| a l]; [done |].
  cbn [choice bounds]. destruct (randbelow _ g) as [i g'].
  by destruct ((a :: l) !! i).
Qed.

(** X9: the sampler raises nothing but IndexError, and it raises only when
    the two collections share no week or when the week it drew has an empty
    bucket in one of them. *)
Theorem sampler_raises_only_index_error tracks photos (g g' : G) (e : exn) :
  run (get_random_photo_and_song tracks photos) g = (inl e, g') ->
  e = IndexError /\
  (dom tracks ∩ dom photos = ∅ \/
   exists w, w ∈ dom tracks ∩ dom photos /\
             (tracks !! w = Some [] \/ photos !! w = Some [])).
Proof.
  rewrite sampler_unfold, run_bind.
  destruct (run (choice _) g) as [[e0 | wk] g1] eqn:Ew.
  - intros [= <- <-]. apply run_choice_raise in Ew as (-> & Hcw & _).
    split; [done |]. left. unfold common_weeks in Hcw.
    by apply elements_empty_inv, leibniz_equiv in Hcw.
  - pose proof Ew as Hin.
    apply run_choice_elem in Hin.
    pose proof Hin as Hdom. unfold common_weeks in Hdom.
    apply elem_of_elements in Hdom.
    apply common_weeks_elem in Hin as [[lt Ht] [lp Hp]].
    unfold draw_in_week, getitem. rewrite Ht, Hp. cbn [bind].
    rewrite run_bind.
    destruct (run (choice lt) g1) as [[e1 | t] g2] eqn:Et.
    + intros [= <- <-]. apply run_choice_raise in Et as (-> & -> & _).
      split; [done |]. right. exists wk. split; [done | by left].
    + cbn [bind]. rewrite run_bind.
      destruct (run (choice lp) g2) as [[e2 | p] g3] eqn:Ep; [| discriminate].
      intros [= <- <-]. apply run_choice_raise in Ep as (-> & -> & _).
      split; [done |]. right. exists wk. split; [done | by right].
Qed.

(** X10: when the two collections share exactly one week and that week
    holds one track and one photo, the sampler returns that triple
    whatever the generator draws. *)
Theorem single_choice_is_certain tracks photos (w : Z * Z) (t : T) (p : P)
  (g : G) :
  dom tracks ∩ dom photos = {[ w ]} ->
  tracks !! w = Some [t] -> photos !! w = Some [p] ->
  exists g', run (get_random_photo_and_song tracks photos) g
             = (inr (t, p, w), g').
Proof.
  intros Hdom Ht Hp.
  rewrite sampler_unfold, run_bind. unfold common_weeks.
  rewrite Hdom, elements_singleton.
  destruct (run_choice_singleton w g) as [g1 ->].
  unfold draw_in_week, getitem. rewrite Ht, Hp. cbn [bind].
  rewrite run_bind. destruct (run_choice_singleton t g1) as [g2 ->].
  cbn [bind]. rewrite run_bind.
  destruct (run_choice_singleton p g2) as [g3 ->].
  by exists g3.
Qed.

(** X11: a sample that succeeds has asked the generator for exactly three
    numbers: one below the number of common weeks, then one below the size
    of the drawn week's track bucket, then one below the size of its photo
    bucket. *)
Theorem sampler_draws_three tracks photos (g g' : G) (t : T) (p : P)
  (w : Z * Z) :
  run (get_random_photo_and_song tracks photos) g = (inr (t, p, w), g') ->
  exists lt lp,
    tracks !! w = Some lt /\ photos !! w = Some lp /\
    bounds (get_random_photo_and_song tracks photos) g =
    [size (dom tracks ∩ dom photos); length lt; length lp].
Proof.
  rewrite sampler_unfold, run_bind, bounds_bind.
  destruct (run (choice _) g) as [[e0 | wk] g1] eqn:Ew; [discriminate |].
  assert (Hcw : common_weeks tracks photos <> []).
  { intros E. rewrite E in Ew. discriminate. }
  rewrite (bounds_choice _ g Hcw).
  apply run_choice_elem, common_weeks_elem in Ew as [[lt Ht] [lp Hp]].
  unfold draw_in_week, getitem. rewrite Ht, Hp. cbn [bind].
  rewrite run_bind, bounds_bind.
  destruct (run (choice lt) g1) as [[e1 | t1] g2] eqn:Et; [discriminate |].
  assert (Hlt : lt <> []) by (intros E; rewrite E in Et; discriminate).
  rewrite (bounds_choice _ g1 Hlt). cbn [bind].
  rewrite run_bind, bounds_bind.
  destruct (run (choice lp) g2) as [[e2 | p1] g3] eqn:Ep; [discriminate |].
  assert (Hlp : lp <> []) by (intros E; rewrite E in Ep; discriminate).
  rewrite (bounds_choice _ g2 Hlp). cbn [run bounds].
  intros [= <- <- <- <-]. exists lt, lp. by repeat split.
Qed.

End SamplerRuns.

Lemma sampler_raises_only_index_error_witness :
  let tracks : gmap (Z * Z) (list nat) := {[ (2024, 10) := [] ]} in
  let photos : gmap (Z * Z) (list nat) := {[ (2024, 10) := [7%nat] ]} in
  run (src:=Replay.source) (get_random_photo_and_song tracks photos)
    [5%nat; 3%nat]
  = (inl IndexError, [3%nat]) /\
  IndexError = IndexError.
Proof.
  intros tracks photos.
  assert (Hrun :
    run (src:=Replay.source) (get_random_photo_and_song tracks photos)
      [5%nat; 3%nat]
    = (inl IndexError, [3%nat])) by (vm_compute; reflexivity).
  split; [exact Hrun |].
  exact (proj1 (sampler_raises_only_index_error (src:=Replay.source)
                  tracks photos _ _ _ Hrun)).
Defined.

Lemma single_choice_is_certain_witness :
  let tracks : gmap (Z * Z) (list nat) := {[ (2024, 10) := [1%nat] ]} in
  let photos : gmap (Z * Z) (list nat) :=
    {[ (2024, 10) := [7%nat]; (2024, 11) := [8%nat] ]} in
  (dom tracks ∩ dom photos = {[ (2024, 10) ]} /\
   tracks !! (2024, 10) = Some [1%nat] /\
   photos !! (2024, 10) = Some [7%nat]) /\
  exists g', run (src:=Replay.source)
               (get_random_photo_and_song tracks photos) [9%nat; 9%nat]
             = (inr (1%nat, 7%nat, (2024, 10)), g').
Proof.
  intros tracks photos.
  assert (Hdom : dom tracks ∩ dom photos = {[ (2024, 10) ]}).
  { apply set_eq. intros k. unfold tracks, photos.
    rewrite elem_of_intersection, !elem_of_dom, elem_of_singleton.
    split.
    - intros [[l Hl] _].
      destruct (decide (k = (2024, 10))) as [-> | Hne]; [done |].
      by rewrite lookup_singleton_ne in Hl.
    - intros ->. split; vm_compute; by eexists. }
  assert (Ht : tracks !! (2024, 10) = Some [1%nat])
    by (vm_compute; reflexivity).
  assert (Hp : photos !! (2024, 10) = Some [7%nat])
    by (vm_compute; reflexivity).
  split; [by repeat split |].
  exact (single_choice_is_certain (src:=Replay.source) tracks photos
           (2024, 10) 1%nat 7%nat [9%nat; 9%nat] Hdom Ht Hp).
Defined.

Lemma sampler_draws_three_witness :
  let tracks : gmap (Z * Z) (list nat) :=
    {[ (2024, 10) := [1%nat; 2%nat] ]} in
  let photos : gmap (Z * Z) (list nat) :=
    {[ (2024, 10) := [7%nat; 8%nat; 9%nat] ]} in
  run (src:=Replay.source) (get_random_photo_and_song tracks photos)
    [5%nat; 3%nat; 4%nat]
  = (inr (2%nat, 8%nat, (2024, 10)), []) /\
  exists lt lp,
    tracks !! (2024, 10) = Some lt /\ photos !! (2024, 10) = Some lp /\
    bounds (src:=Replay.source) (get_random_photo_and_song tracks photos)
      [5%nat; 3%nat; 4%nat]
    = [size (dom tracks ∩ dom photos); length lt; length lp].
Proof.
  intros tracks photos.
  assert (Hrun :
    run (src:=Replay.source) (get_random_photo_and_song tracks photos)
      [5%nat; 3%nat; 4%nat]
    = (inr (2%nat, 8%nat, (2024, 10)), [])) by (vm_compute; reflexivity).
  split; [exact Hrun |].
  exact (sampler_draws_three (src:=Replay.source) tracks photos _ _ _ _ _
           Hrun).
Defined.

Section SamplerMass.
Context {T P : Type}.
Local Open Scope Qc_scope.

Lemma Qc_sum_const {X} (c : Qc) (l : list X) :
  Qc_sum (map (fun _ => c) l) = Qc_of_nat (length l) * c.
Proof.
  induction l as [| x l IH]; simpl.
  - change (Q2Qc 0 = Q2Qc 0 * c). ring.
  - rewrite IH, Qc_of_nat_S. ring.
Qed.

Lemma expect_choice_const {A} (l : list A) (c : Qc) :
  l <> [] -> expect (choice l) (fun _ => c) = c.
Proof.
  intros Hl. rewrite expect_choice, Qc_sum_const. field.
  apply Qc_of_nat_pos. destruct l; [done | simpl; lia].
Qed.

(** X12: when the two collections share a week and no bucket of a common
    week is empty, the sampler returns a triple with probability 1, so the
    probabilities of the returned triples add up to one. *)
Theorem sampler_returns_almost_surely (tracks : gmap (Z * Z) (list T))
  (photos : gmap (Z * Z) (list P)) :
  dom tracks ∩ dom photos ≠ ∅ ->
  (forall w lt lp, tracks !! w = Some lt -> photos !! w = Some lp ->
                   lt <> [] /\ lp <> []) ->
  prob (get_random_photo_and_song tracks photos) (fun _ => true) = Q2Qc 1.
Proof.
  intros Hne Hfull. unfold prob.
  rewrite sampler_unfold, expect_bind, expect_choice.
  rewrite (Qc_sum_ext _ (fun _ => Q2Qc 1)).
  - rewrite Qc_sum_const. field. apply Qc_of_nat_pos.
    destruct (common_weeks tracks photos) eqn:E; [| simpl; lia].
    exfalso. apply Hne. unfold common_weeks in E.
    by apply elements_empty_inv, leibniz_equiv in E.
  - intros w Hw. apply common_weeks_elem in Hw as [[lt Ht] [lp Hp]].
    destruct (Hfull w lt lp Ht Hp) as [Hlt Hlp].
    unfold draw_in_week, getitem. rewrite Ht, Hp. cbn [bind].
    rewrite expect_bind.
    rewrite (expect_ext _ _ (fun _ => Q2Qc 1));
      [by apply expect_choice_const |].
    intros t. cbn [bind]. rewrite expect_bind.
    rewrite (expect_ext _ _ (fun _ => Q2Qc 1));
      [by apply expect_choice_const |].
    done.
Qed.

End SamplerMass.

Lemma sampler_returns_almost_surely_witness :
  let tracks : gmap (Z * Z) (list nat) :=
    {[ (2024, 10) := [1%nat; 2%nat; 3%nat]; (2024, 11) := [4%nat] ]} in
  let photos : gmap (Z * Z) (list nat) :=
    {[ (2024, 10) := [7%nat]; (2024, 11) := [8%nat; 9%nat] ]} in
  dom tracks ∩ dom photos ≠ ∅ /\
  prob (get_random_photo_and_song tracks photos) (fun _ => true) = Q2Qc 1.
Proof.
  intros tracks photos.
  assert (Hne : dom tracks ∩ dom photos ≠ ∅).
  { intros E. apply (f_equal elements) in E. by vm_compute in E. }
  split; [exact Hne |].
  apply (sampler_returns_almost_surely tracks photos Hne).
  intros w lt lp Ht Hp. unfold tracks, photos in *.
  destruct (decide (w = (2024, 10))) as [-> | H10].
  - vm_compute in Ht, Hp. by simplify_eq.
  - destruct (decide (w = (2024, 11))) as [-> | H11].
    + vm_compute in Ht, Hp. by simplify_eq.
    + rewrite lookup_insert_ne in Ht by done.
      by rewrite lookup_singleton_ne in Ht.
Defined.


(* --------------------------------------------------------------------- *)
(* load_photos: order, count and the glob                                *)
(* --------------------------------------------------------------------- *)

Lemma total_entries_setdefault_append {A} (k : Z * Z) (x : A)
  (d : gmap (Z * Z) (list A)) :
  total_entries (setdefault_append k x d) = S (total_entries d).
Proof.
  unfold total_entries, setdefault_append.
  destruct (d !! k) as [l |] eqn:E; simpl.
  - rewrite <- insert_delete_eq.
    rewrite map_fold_insert_L; [| intros; lia | apply lookup_delete_eq].
    rewrite (map_fold_delete_L _ _ k l d); [| intros; lia | done].
    rewrite length_app. simpl. lia.
  - rewrite map_fold_insert_L; [done | intros; lia | done].
Qed.

Lemma for_each_filter_neutral {X S} (body : X -> S -> outcome S)
  (keep : X -> Prop) `{forall x, Decision (keep x)} (l : list X) (s : S) :
  (forall s x, ~ keep x -> body x s = Done s) ->
  for_each body (filter keep l) s = for_each body l s.
Proof.
  intros Hskip. revert s. induction l as [| x l IH]; intros s; [done |].
  rewrite filter_cons. destruct (decide (keep x)) as [Hk | Hk]; simpl.
  - destruct (body x s); [apply IH | done].
  - rewrite (Hskip s x Hk). apply IH.
Qed.

Section PhotoContents.
Context {lib : DatetimeLib}.

(** X13: in the dict that load_photos returns, every bucket holds exactly
    the paths of the .jpg/.jpeg files of its week that the glob yields, in
    the order of the listing, and a week has a bucket exactly when it has
    such a file. *)
Theorem photo_bucket_in_listing_order (folder : directory photo_file)
  (buckets : gmap (Z * Z) (list string)) (k : Z * Z) :
  load_photos folder = inr buckets ->
  buckets !! k =
  match (fun f => path_str (d_path folder) (p_name f))
          <$> filter (in_week k) (glob_any folder) with
  | [] => None
  | l => Some l
  end.
Proof.
  intros Hrun.
  pose proof (load_photos_bucket folder buckets k Hrun) as Hb.
  pose proof (load_photos_nonempty folder buckets Hrun k) as Hn.
  destruct (buckets !! k) as [l |]; simpl in Hb.
  - rewrite <- Hb. destruct l; [by destruct (Hn [])| done].
  - by rewrite <- Hb.
Qed.

Lemma for_each_add_photo_total folder fs m0 m :
  for_each (add_photo folder) fs m0 = Done m ->
  total_entries m =
  (total_entries m0
   + length (filter (fun f => Is_true (is_jpeg f)) fs))%nat.
Proof.
  revert m0. induction fs as [| f fs IH]; intros m0.
  - intros [= <-]. simpl. lia.
  - cbn [for_each]. rewrite filter_cons. unfold add_photo.
    destruct (is_jpeg f); simpl.
    + destruct (get_photo_date f) as [e | d]; [discriminate |].
      intros Hrest. rewrite (IH _ Hrest), total_entries_setdefault_append.
      lia.
    + apply IH.
Qed.

(** X14: the dict that load_photos returns holds one entry per .jpg/.jpeg
    file that the glob yields: the sizes of all buckets add up to the
    number of those files. *)
Theorem load_photos_entry_count (folder : directory photo_file)
  (buckets : gmap (Z * Z) (list string)) :
  load_photos folder = inr buckets ->
  total_entries buckets =
  length (filter (fun f => Is_true (is_jpeg f)) (glob_any folder)).
Proof.
  unfold load_photos.
  destruct (for_each _ _ _) as [m | e m] eqn:E; [| discriminate].
  intros [= <-]. rewrite (for_each_add_photo_total _ _ _ _ E).
  unfold total_entries. by rewrite map_fold_empty.
Qed.

End PhotoContents.

Lemma photo_bucket_in_listing_order_witness :
  let buckets : gmap (Z * Z) (list string) :=
    {[ (2024, 10) := ["/photos/a.JPG"; "/photos/b.jpeg"]%string ]} in
  load_photos (lib:=FixedWidth.lib) Samples.album = inr buckets /\
  buckets !! (2020, 1) =
  match (fun f => path_str (d_path Samples.album) (p_name f))
          <$> filter (in_week (lib:=FixedWidth.lib) (2020, 1))
                (glob_any Samples.album) with
  | [] => None
  | l => Some l
  end.
Proof.
  intros buckets.
  assert (Hrun : load_photos (lib:=FixedWidth.lib) Samples.album
                 = inr buckets) by (vm_compute; reflexivity).
  split; [exact Hrun |].
  exact (photo_bucket_in_listing_order (lib:=FixedWidth.lib)
           Samples.album buckets (2020, 1) Hrun).
Defined.

Lemma load_photos_entry_count_witness :
  let buckets : gmap (Z * Z) (list string) :=
    {[ (2024, 10) := ["/photos/a.JPG"; "/photos/b.jpeg"]%string ]} in
  load_photos (lib:=FixedWidth.lib) Samples.album = inr buckets /\
  total_entries buckets =
  length (filter (fun f => Is_true (is_jpeg f)) (glob_any Samples.album)).
Proof.
  intros buckets.
  assert (Hrun : load_photos (lib:=FixedWidth.lib) Samples.album
                 = inr buckets) by (vm_compute; reflexivity).
  split; [exact Hrun |].
  exact (load_photos_entry_count (lib:=FixedWidth.lib)
           Samples.album buckets Hrun).
Defined.

(* --------------------------------------------------------------------- *)
(* Names: the globs and the suffix test                                  *)
(* --------------------------------------------------------------------- *)

Section Names.
Local Open Scope string_scope.

Ltac app_simpl := unfold String.append; fold String.append.
Ltac app_simpl_in H := unfold String.append in H; fold String.append in H.

Lemma str_app_nil_r (s : string) : s +:+ "" = s.
Proof. induction s as [| c s IH]; app_simpl; [done | congruence]. Qed.

Lemma str_app_assoc (a b c : string) : (a +:+ b) +:+ c = a +:+ (b +:+ c).
Proof. induction a as [| x a IH]; app_simpl; simpl; [done | congruence]. Qed.

Lemma str_length_app (a b : string) :
  String.length (a +:+ b) = (String.length a + String.length b)%nat.
Proof. induction a as [| x a IH]; app_simpl; simpl; [done | congruence]. Qed.

Lemma fnmatch_empty (n : string) : fnmatch "" n = true <-> n = "".
Proof. by destruct n. Qed.

Lemma fnmatch_literal (c : ascii) (p n : string) :
  Ascii.eqb c "*" = false ->
  fnmatch (String c p) n = true <->
  exists n', n = String c n' /\ fnmatch p n' = true.
Proof.
  intros Hc. cbn [fnmatch]. rewrite Hc. destruct n as [| d n]; simpl.
  - split; [done | by intros (n' & ? & _)].
  - rewrite andb_true_iff, Ascii.eqb_eq. split.
    + intros [-> Hp]. by exists n.
    + intros (n' & [= -> ->] & Hp). done.
Qed.

Lemma fnmatch_star (p n : string) :
  fnmatch (String "*" p) n = true <->
  exists a b, n = a +:+ b /\ fnmatch p b = true.
Proof.
  induction n as [| d n IH].
  - cbn. rewrite orb_false_r. split.
    + intros Hp. by exists "", "".
    + intros (a & b & E & Hp). destruct a; [| done]. app_simpl_in E.
      by subst.
  - change (fnmatch (String "*" p) (String d n))
      with (fnmatch p (String d n) || fnmatch (String "*" p) n).
    rewrite orb_true_iff, IH. split.
    + intros [Hp | (a & b & -> & Hp)].
      * by exists "", (String d n).
      * by exists (String d a), b.
    + intros (a & b & E & Hp). destruct a as [| x a]; app_simpl_in E.
      * left. by subst.
      * right. injection E as -> ->. by exists a, b.
Qed.

Lemma fnmatch_plain (p n : string) :
  star_free p = true -> fnmatch p n = true <-> n = p.
Proof.
  revert n. induction p as [| c p IH]; intros n Hp.
  - apply fnmatch_empty.
  - simpl in Hp. apply andb_true_iff in Hp as [Hc Hp].
    apply negb_true_iff in Hc. rewrite fnmatch_literal by done. split.
    + intros (n' & -> & Hn'). f_equal. by apply IH.
    + intros ->. exists p. split; [done | by apply IH].
Qed.

Lemma fnmatch_one_star (p q n : string) :
  star_free p = true -> star_free q = true ->
  fnmatch (p +:+ String "*" q) n = true <->
  exists mid, n = p +:+ mid +:+ q.
Proof.
  revert n. induction p as [| c p IH]; intros n Hp Hq.
  - app_simpl. rewrite fnmatch_star. split.
    + intros (a & b & -> & Hb). exists a. f_equal. by apply fnmatch_plain.
    + intros [mid ->]. exists mid, q. split; [done | by apply fnmatch_plain].
  - simpl in Hp. apply andb_true_iff in Hp as [Hc Hp].
    apply negb_true_iff in Hc.
    change (String c p +:+ String "*" q)
      with (String c (p +:+ String "*" q)).
    rewrite fnmatch_literal by done. split.
    + intros (n' & -> & Hn'). apply IH in Hn' as [mid ->]; [| done..].
      by exists mid.
    + intros [mid ->]. eexists. split; [reflexivity |].
      apply IH; [done.. |]. by exists mid.
Qed.

Lemma fnmatch_any_dot_any (n : string) :
  fnmatch "*.*" n = true <-> exists a b, n = a +:+ "." +:+ b.
Proof.
  rewrite fnmatch_star. split.
  - intros (a & b & -> & Hb).
    apply fnmatch_literal in Hb as (b' & -> & Hb'); [| done].
    by exists a, b'.
  - intros (a & b & ->). exists a, ("." +:+ b). split; [done |].
    apply fnmatch_literal; [done |]. exists b. split; [done |].
    apply fnmatch_star. exists b, "". by rewrite str_app_nil_r.
Qed.

(** X15: the glob 'Streams*.json' yields exactly the names that begin with
    Streams and end with .json, the two parts not overlapping, and the glob
    '*.*' yields exactly the names that contain a dot; letter case
    counts. *)
Theorem globs_characterised (name : string) :
  (fnmatch "Streams*.json" name = true <->
   exists mid, name = "Streams" +:+ mid +:+ ".json") /\
  (fnmatch "*.*" name = true <-> exists a b, name = a +:+ "." +:+ b).
Proof.
  split; [| apply fnmatch_any_dot_any].
  exact (fnmatch_one_star "Streams" ".json" name eq_refl eq_refl).
Qed.

Lemma rfind_dot_split (s : string) (i : nat) :
  rfind_dot s = Some i ->
  exists a b, s = a +:+ "." +:+ b /\ String.length a = i /\
              rfind_dot b = None.
Proof.
  revert i. induction s as [| c s IH]; intros i; simpl; [done |].
  destruct (rfind_dot s) as [j |] eqn:E.
  - intros [= <-]. destruct (IH j eq_refl) as (a & b & -> & Ha & Hb).
    exists (String c a), b. simpl. by rewrite Ha.
  - destruct (Ascii.eqb c ".") eqn:Ec; [| done].
    intros [= <-]. apply Ascii.eqb_eq in Ec as ->. by exists "", s.
Qed.

Lemma rfind_dot_app (a b : string) :
  rfind_dot b = None ->
  rfind_dot (a +:+ "." +:+ b) = Some (String.length a).
Proof.
  intros Hb. induction a as [| c a IH].
  - change (rfind_dot (String "." b) = Some O). simpl. by rewrite Hb.
  - change (rfind_dot (String c (a +:+ "." +:+ b))
            = Some (S (String.length a))).
    cbn [rfind_dot]. by rewrite IH.
Qed.

Lemma substring_app_r (a b : string) :
  String.substring (String.length a) (String.length b) (a +:+ b) = b.
Proof.
  induction a as [| c a IH]; app_simpl; simpl; [| done].
  induction b as [| d b IHb]; simpl; [done | by rewrite IHb].
Qed.

(* The suffix of a name is the part from its last dot on, unless that dot
   opens or closes the name. *)
Lemma path_suffix_split (a b : string) :
  rfind_dot b = None ->
  path_suffix (a +:+ "." +:+ b) =
  match a, b with
  | "", _ => ""
  | _, "" => ""
  | _, _ => "." +:+ b
  end.
Proof.
  intros Hb. unfold path_suffix. rewrite (rfind_dot_app a b Hb).
  rewrite str_length_app.
  change (String.length ("." +:+ b)) with (S (String.length b)).
  destruct a as [| c a]; [done |].
  destruct b as [| d b].
  - destruct (_ && _) eqn:E; [| done].
    apply andb_true_iff in E as [_ E]. apply Nat.ltb_lt in E.
    simpl in E. lia.
  - destruct (_ && _) eqn:E.
    + replace (String.length (String c a) + S (String.length (String d b))
               - String.length (String c a))%nat
        with (String.length ("." +:+ String d b)) by (simpl; lia).
      apply (substring_app_r (String c a)).
    + apply andb_false_iff in E as [E | E]; apply Nat.ltb_ge in E;
        simpl in E; lia.
Qed.

Lemma path_suffix_dotless (s : string) :
  rfind_dot s = None -> path_suffix s = "".
Proof. intros Hs. unfold path_suffix. by rewrite Hs. Qed.

Lemma ascii_lower_dot (c : ascii) :
  Ascii.eqb (ascii_lower c) "." = Ascii.eqb c ".".
Proof. by destruct c as [[] [] [] [] [] [] [] []]. Qed.

Lemma rfind_dot_lower (s : string) :
  rfind_dot (str_lower s) = rfind_dot s.
Proof.
  induction s as [| c s IH]; simpl; [done |].
  by rewrite IH, ascii_lower_dot.
Qed.

End Names.

Section JpegNames.
Context {lib : DatetimeLib}.
Local Open Scope string_scope.

Lemma is_jpeg_has_dot (f : photo_file) :
  is_jpeg f = true ->
  exists a b, p_name f = a +:+ "." +:+ b /\ rfind_dot b = None /\
              a <> "" /\ b <> "" /\
              (str_lower ("." +:+ b) = ".jpg"
               \/ str_lower ("." +:+ b) = ".jpeg").
Proof.
  unfold is_jpeg. intros Hj.
  destruct (rfind_dot (p_name f)) as [i |] eqn:Ei.
  - destruct (rfind_dot_split _ _ Ei) as (a & b & En & _ & Hb).
    rewrite En, (path_suffix_split a b Hb) in Hj.
    exists a, b. split; [done |]. split; [done |].
    destruct a as [| c a]; [done |]. destruct b as [| d b]; [done |].
    split; [done |]. split; [done |].
    apply orb_true_iff in Hj as [Hj | Hj]; apply String.eqb_eq in Hj;
      [by left | by right].
  - by rewrite (path_suffix_dotless _ Ei) in Hj.
Qed.

(** X16: a file counts as a photo exactly when its name is a non-empty
    stem followed by an extension that reads .jpg or .jpeg once
    lower-cased; so upper-case and mixed-case extensions count, the
    extension of a name with several dots is the last one, and a name that
    is only the extension (a hidden file called .jpg) does not count. *)
Theorem is_jpeg_characterised (f : photo_file) :
  is_jpeg f = true <->
  exists stem ext, p_name f = stem +:+ ext /\ stem <> "" /\
                   (str_lower ext = ".jpg" \/ str_lower ext = ".jpeg").
Proof.
  split.
  - intros Hj.
    destruct (is_jpeg_has_dot f Hj) as (a & b & En & _ & Ha & _ & Hext).
    by exists a, ("." +:+ b).
  - intros (stem & ext & En & Hstem & Hext).
    assert (Hdot : rfind_dot ext = Some O).
    { rewrite <- rfind_dot_lower. by destruct Hext as [-> | ->]. }
    destruct (rfind_dot_split _ _ Hdot) as (a & b & Eext & Ha & Hb).
    destruct a; [| done]. change ("" +:+ "." +:+ b) with ("." +:+ b) in Eext.
    assert (Hbne : b <> "").
    { intros ->. rewrite Eext in Hext. by destruct Hext. }
    unfold is_jpeg. rewrite En, Eext, (path_suffix_split stem b Hb).
    destruct stem as [| c stem]; [done |]. destruct b as [| d b]; [done |].
    rewrite <- Eext. apply orb_true_iff.
    destruct Hext as [-> | ->]; [by left | by right].
Qed.

(** X17: the glob '*.*' never hides a photo: every name with a .jpg or
    .jpeg suffix contains a dot, so load_photos returns, or raises, what
    it would by walking every file of the folder. *)
Theorem glob_keeps_every_jpeg (folder : directory photo_file) :
  (forall f, is_jpeg f = true -> fnmatch "*.*" (p_name f) = true) /\
  load_photos folder =
  match for_each (add_photo (d_path folder)) (d_files folder) ∅ with
  | Done photos_by_week => inr photos_by_week
  | Raised e _ => inl e
  end.
Proof.
  assert (Hglob : forall f,
    is_jpeg f = true -> fnmatch "*.*" (p_name f) = true).
  { intros f Hj. destruct (is_jpeg_has_dot f Hj) as (a & b & En & _).
    apply fnmatch_any_dot_any. by exists a, b. }
  split; [exact Hglob |].
  unfold load_photos, glob_any. rewrite for_each_filter_neutral; [done |].
  intros m f Hf. unfold add_photo.
  destruct (is_jpeg f) eqn:Ej; [| done].
  exfalso. apply Hf. by rewrite (Hglob f Ej).
Qed.

End JpegNames.

(* --------------------------------------------------------------------- *)
(* play_audio and next_item                                              *)
(* --------------------------------------------------------------------- *)

Lemma getitem_0_truthy (v : json) (e : exn) :
  truthy v = true -> getitem_0 v = inl e -> e = KeyError \/ e = TypeError.
Proof.
  destruct v as [| b | z | s | l | kvs]; simpl; intros Hv Hg;
    try (injection Hg as <-; by auto).
  - destruct s; [done | discriminate].
  - destruct l; [done | discriminate].
Qed.

Lemma getitem_str_raises (v : json) (k : string) (e : exn) :
  getitem_str v k = inl e -> e = KeyError \/ e = TypeError.
Proof.
  destruct v as [| b | z | s | l | kvs]; simpl; intros Hg;
    try (injection Hg as <-; by auto).
  destruct (dict_lookup kvs k); [discriminate |].
  injection Hg as <-. by left.
Qed.

(** X18: one call of play_audio does one of three things and nothing
    else.  When sp.devices() answers nothing (None, an empty object) or
    lists no device, it prints the 'No active Spotify devices' line,
    starts no playback and raises nothing.  Otherwise it starts exactly one
    playback, on the first device listed, with the given uri as the only
    uri and the given start position, and prints nothing; or, on an answer
    of another shape, it raises KeyError or TypeError and leaves the player
    as it was. *)
Theorem play_audio_effects (devices uri : json) (pos : Z) (pl pl' : player)
  (r : option exn) :
  play_audio devices uri pos pl = (r, pl') ->
  (r = None /\
   pl' = mk_player (p_stdout pl ++ [no_device_message]) (p_started pl) /\
   (truthy devices = false \/
    exists listed, getitem_str devices "devices" = inr listed /\
                   truthy listed = false)) \/
  (r = None /\
   exists listed first id,
     getitem_str devices "devices" = inr listed /\
     getitem_0 listed = inr first /\ getitem_str first "id" = inr id /\
     pl' = mk_player (p_stdout pl)
             (p_started pl ++ [mk_playback id [uri] pos])) \/
  ((r = Some KeyError \/ r = Some TypeError) /\ pl' = pl).
Proof.
  unfold play_audio.
  destruct (truthy devices); simpl;
    [| intros [= <- <-]; left; by auto].
  destruct (getitem_str devices "devices") as [e | listed] eqn:E1.
  { intros [= <- <-]. right. right. split; [| done].
    destruct (getitem_str_raises _ _ _ E1) as [-> | ->]; auto. }
  destruct (truthy listed) eqn:Hl; simpl.
  2: { intros [= <- <-]. left. split; [done |]. split; [done |].
       right. by exists listed. }
  destruct (getitem_0 listed) as [e | first] eqn:E2.
  { intros [= <- <-]. right. right. split; [| done].
    destruct (getitem_0_truthy _ _ Hl E2) as [-> | ->]; auto. }
  destruct (getitem_str first "id") as [e | id] eqn:E3.
  { intros [= <- <-]. right. right. split; [| done].
    destruct (getitem_str_raises _ _ _ E3) as [-> | ->]; auto. }
  intros [= <- <-]. right. left. split; [done |].
  by exists listed, first, id.
Qed.

Lemma play_audio_effects_witness :
  let devices :=
    JDict [("devices"%string,
            JList [JDict [("id"%string, JStr "laptop")];
                   JDict [("id"%string, JStr "phone")]])] in
  let pl' := mk_player []
               [mk_playback (JStr "laptop") [JStr "spotify:track:1"] 30000] in
  play_audio devices (JStr "spotify:track:1") 30000 (mk_player [] []) =
  (None, pl') /\
  exists listed first id,
    getitem_str devices "devices" = inr listed /\
    getitem_0 listed = inr first /\ getitem_str first "id" = inr id.
Proof.
  intros devices pl'.
  assert (Hrun :
    play_audio devices (JStr "spotify:track:1") 30000 (mk_player [] []) =
    (None, pl')) by reflexivity.
  split; [exact Hrun |].
  destruct (play_audio_effects _ _ _ _ _ _ Hrun)
    as [(_ & Hpl & _) | [(_ & listed & first & id & H1 & H2 & H3 & _)
                        | [_ Hpl]]];
    [discriminate Hpl | by exists listed, first, id | discriminate Hpl].
Defined.

Section MachineFacts.
Context {G : Type} {src : RandomSource G}.

Lemma run_sampler_sound {T P : Type} (tracks : gmap (Z * Z) (list T))
  (photos : gmap (Z * Z) (list P)) (g g' : G) (t : T) (p : P) (w : Z * Z) :
  run (get_random_photo_and_song tracks photos) g = (inr (t, p, w), g') ->
  (exists l, tracks !! w = Some l /\ t ∈ l) /\
  (exists l, photos !! w = Some l /\ p ∈ l).
Proof.
  rewrite sampler_unfold, run_bind.
  destruct (run (choice _) g) as [[e | wk] g1] eqn:Ew; [discriminate |].
  unfold draw_in_week. rewrite run_bind.
  destruct (run (getitem tracks wk) g1) as [[e | lt] g2] eqn:E1;
    [discriminate |].
  apply run_getitem in E1 as [E1 ->]. rewrite run_bind.
  destruct (run (choice lt) g1) as [[e | t1] g3] eqn:E2; [discriminate |].
  apply run_choice_elem in E2. rewrite run_bind.
  destruct (run (getitem photos wk) g3) as [[e | lp] g4] eqn:E3;
    [discriminate |].
  apply run_getitem in E3 as [E3 ->]. rewrite run_bind.
  destruct (run (choice lp) g3) as [[e | p1] g5] eqn:E4; [discriminate |].
  apply run_choice_elem in E4.
  cbn [run]. intros [= <- <- <- <-]. split; eauto.
Qed.

Lemma next_item_keeps_sound {T P : Type} (m : machine T P G) :
  attributes_sound m ->
  attributes_sound (next_item m).2 /\
  tracks (next_item m).2 = tracks m /\ photos (next_item m).2 = photos m.
Proof.
  intros Hm. unfold next_item.
  destruct (run _ (generator m)) as [[e | [[t p] w]] g'] eqn:Er; simpl.
  - split; [| done]. by destruct m.
  - split; [| done]. unfold attributes_sound. simpl.
    by apply run_sampler_sound in Er.
Qed.

(** X19: the attributes that next_item sets always name a week of both
    collections, a track from the history bucket of that week and a photo
    from the photo bucket of the same week.  This holds after any number of
    calls, whether they returned or raised, from a machine whose attributes
    are unset; and the two bucket collections are the same after as
    before. *)
Theorem shown_track_and_photo_share_week {T P : Type} (m : machine T P G)
  (n : nat) :
  attributes_sound m ->
  attributes_sound (press n m) /\
  tracks (press n m) = tracks m /\ photos (press n m) = photos m.
Proof.
  revert m. induction n as [| n IH]; intros m Hm; [done |].
  cbn [press].
  destruct (next_item_keeps_sound m Hm) as (Hs & Ht & Hp).
  destruct (IH _ Hs) as (Hs' & Ht' & Hp').
  split; [done |]. split; congruence.
Qed.

Lemma play_audio_cases (devices uri : json) (pos : Z) (pl pl' : player)
  (r : option exn) :
  play_audio devices uri pos pl = (r, pl') ->
  (r = None /\
   pl' = mk_player (p_stdout pl ++ [no_device_message]) (p_started pl)) \/
  (r = None /\
   exists id, pl' = mk_player (p_stdout pl)
                      (p_started pl ++ [mk_playback id [uri] pos])) \/
  (r <> None /\ pl' = pl).
Proof.
  unfold play_audio.
  destruct (truthy devices); simpl; [| intros [= <- <-]; by left].
  destruct (getitem_str devices "devices") as [e | listed];
    [intros [= <- <-]; by right; right |].
  destruct (truthy listed); simpl; [| intros [= <- <-]; by left].
  destruct (getitem_0 listed) as [e | first];
    [intros [= <- <-]; by right; right |].
  destruct (getitem_str first "id") as [e | id];
    [intros [= <- <-]; by right; right |].
  intros [= <- <-]. right. left. split; [done | by exists id].
Qed.

(** X20: next_item hands to play_audio the uri of the track it has just
    stored, with the start position 30000 ms: whenever a playback is
    started it has that uri as its only uri, the track lies in the history
    bucket of the stored week, and the position is SONG_START_MS.  Whenever
    the call raises, in the sampler or in play_audio, no playback has been
    started and the player has printed nothing. *)
Theorem next_item_plays_stored_track (m m' : machine event string G)
  (devices : json) (pl pl' : player) (r : option exn) :
  next_item_play m devices pl = (r, m', pl') ->
  (p_started pl' <> p_started pl ->
   exists t w l id,
     current_track m' = Some t /\ current_week m' = Some w /\
     tracks m !! w = Some l /\ t ∈ l /\
     p_started pl' =
     p_started pl ++ [mk_playback id [uri t] SONG_START_MS]) /\
  (r <> None -> pl' = pl).
Proof.
  unfold next_item_play, next_item.
  destruct (run _ (generator m)) as [[e | [[t p] w]] g'] eqn:Er.
  - intros [= <- <- <-]. by split.
  - cbn [current_track].
    destruct (play_audio devices (uri t) SONG_START_MS pl) as [r0 pl0] eqn:Ep.
    intros [= <- <- <-].
    apply run_sampler_sound in Er as [(l & Hl & Ht) _].
    destruct (play_audio_cases _ _ _ _ _ _ Ep)
      as [[-> ->] | [[-> (id & ->)] | [Hr ->]]]; simpl.
    + by split.
    + split; [| done]. intros _. by exists t, w, l, id.
    + by split.
Qed.

End MachineFacts.

Lemma shown_track_and_photo_share_week_witness :
  let history : gmap (Z * Z) (list nat) :=
    {[ (2024, 10) := [1%nat; 2%nat] ]} in
  let archive : gmap (Z * Z) (list nat) :=
    {[ (2024, 10) := [7%nat]; (2024, 11) := [8%nat] ]} in
  let m := mk_machine history archive None None None
             [5%nat; 3%nat; 4%nat; 0%nat; 0%nat; 0%nat] in
  attributes_sound m /\
  attributes_sound (press (src:=Replay.source) 2 m).
Proof.
  intros history archive m.
  assert (Hm : attributes_sound m) by exact I.
  split; [exact Hm |].
  exact (proj1 (shown_track_and_photo_share_week (src:=Replay.source)
                  m 2 Hm)).
Defined.

Lemma next_item_plays_stored_track_witness :
  let history : gmap (Z * Z) (list event) :=
    {[ (2024, 10) := [Samples.played_event] ]} in
  let archive : gmap (Z * Z) (list string) :=
    {[ (2024, 10) := ["/photos/a.jpg"%string] ]} in
  let m := mk_machine history archive None None None [0%nat; 0%nat; 0%nat] in
  let devices :=
    JDict [("devices"%string, JList [JDict [("id"%string, JStr "laptop")]])] in
  let m' := mk_machine history archive (Some Samples.played_event)
              (Some "/photos/a.jpg"%string) (Some (2024, 10)) [] in
  let pl' := mk_player []
               [mk_playback (JStr "laptop") [JStr "spotify:track:1"] 30000] in
  next_item_play (src:=Replay.source) m devices (mk_player [] [])
  = (None, m', pl') /\
  exists t w l id,
    current_track m' = Some t /\ current_week m' = Some w /\
    tracks m !! w = Some l /\ t ∈ l /\
    p_started pl' = [] ++ [mk_playback id [uri t] SONG_START_MS].
Proof.
  intros history archive m devices m' pl'.
  assert (Hrun :
    next_item_play (src:=Replay.source) m devices (mk_player [] [])
    = (None, m', pl')) by (vm_compute; reflexivity).
  split; [exact Hrun |].
  apply (proj1 (next_item_plays_stored_track (src:=Replay.source)
                  _ _ _ _ _ _ Hrun)).
  discriminate.
Defined.
